(** * guns.lol username checker: a shallow embedding of [main.py]

    The development follows the source file top to bottom: the data
    classes ([Status], [Result], [Config]), the logger, the proxy pool,
    the candidate generator and the checker (fetch / parse / check /
    batch).  External libraries ([re], [bs4], [curl_cffi], [random],
    [rich], the file system, the SIGINT handler) are modelled by their
    observable interface: a regular-expression matcher, a parsed
    document tree, and an environment record of oracles.

    Python strings are modelled by [string]; a character is a code point
    below 256, classified as Python classifies it ([str.isspace],
    [\w], [\d]). *)

From Stdlib Require Import List String Ascii Bool Arith ZArith QArith Lia.
From Stdlib Require Import DecimalString Sorted.
Import ListNotations.

Local Close Scope Q_scope.
Local Open Scope string_scope.
Local Open Scope list_scope.
Local Open Scope nat_scope.

Set Implicit Arguments.
Set Warnings "-register-all".

(* ================================================================== *)
(** ** Python string primitives *)

Module Text.

(** [str.isspace] on one code point below 256. *)
Definition isspace (c : ascii) : bool :=
  let n := nat_of_ascii c in
  ((9 <=? n) && (n <=? 13)) || ((28 <=? n) && (n <=? 32))
  || (n =? 133) || (n =? 160).

(** [\d] of the [re] module: the decimal digits (below 256, the ASCII ones). *)
Definition isdigit (c : ascii) : bool :=
  let n := nat_of_ascii c in (48 <=? n) && (n <=? 57).

(** [\w] of the [re] module on a [str] pattern: alphanumeric code points
    and the underscore. *)
Definition isword (c : ascii) : bool :=
  let n := nat_of_ascii c in
  isdigit c
  || ((65 <=? n) && (n <=? 90)) || ((97 <=? n) && (n <=? 122)) || (n =? 95)
  || (n =? 170) || (n =? 178) || (n =? 179) || (n =? 181) || (n =? 185)
  || (n =? 186) || ((188 <=? n) && (n <=? 190))
  || ((192 <=? n) && (n <=? 214)) || ((216 <=? n) && (n <=? 246))
  || ((248 <=? n) && (n <=? 255)).

Fixpoint lstrip (s : string) : string :=
  match s with
  | EmptyString => EmptyString
  | String c t => if isspace c then lstrip t else s
  end.

Fixpoint rstrip (s : string) : string :=
  match s with
  | EmptyString => EmptyString
  | String c t =>
      match rstrip t with
      | EmptyString => if isspace c then EmptyString else String c EmptyString
      | t' => String c t'
      end
  end.

(** [s.strip()] *)
Definition strip (s : string) : string := rstrip (lstrip s).

(** [s.startswith(p)] *)
Definition startswith (p s : string) : bool := String.prefix p s.

(** [needle in hay] *)
Fixpoint contains (needle hay : string) : bool :=
  String.prefix needle hay
  || match hay with
     | EmptyString => false
     | String _ t => contains needle t
     end.

(** [bool(s)]: a string is truthy when it is not empty. *)
Definition truthy (s : string) : bool :=
  match s with EmptyString => false | _ => true end.

(** [hay.split(sep)[0]]: the text before the first occurrence of [sep]
    (the whole string when there is none). *)
Fixpoint split_head (sep hay : string) : string :=
  match hay with
  | EmptyString => EmptyString
  | String c t =>
      if String.prefix sep hay then EmptyString else String c (split_head sep t)
  end.

(** ["".join(chars)] *)
Definition join (cs : list ascii) : string := string_of_list_ascii cs.

(** [str(n)] for an integer. *)
Definition of_nat (n : nat) : string :=
  NilZero.string_of_uint (Nat.to_uint n).

Definition of_Z (z : Z) : string :=
  match z with
  | Z0 => "0"
  | Zpos _ => of_nat (Z.to_nat z)
  | Zneg _ => String.append "-" (of_nat (Z.to_nat (Z.opp z)))
  end.

End Text.

(* ================================================================== *)
(** ** Status, Result, Config *)

Inductive Status := BANNED | AVAILABLE | TAKEN.

(** [Status.value] *)
Definition Status_value (s : Status) : string :=
  match s with
  | BANNED => "banned"
  | AVAILABLE => "available"
  | TAKEN => "taken"
  end.

Definition Status_eqb (a b : Status) : bool :=
  match a, b with
  | BANNED, BANNED | AVAILABLE, AVAILABLE | TAKEN, TAKEN => true
  | _, _ => false
  end.

(** [timestamp] is the reading of the clock when the record is built. *)
Record Result := mkResult {
  username : string;
  status : Status;
  timestamp : nat
}.

(** The fields of [Config] the checker reads.  [delay] is a Python float;
    it is modelled by a rational, so [delay * attempt] is exact. *)
Record Config := mkConfig {
  browser : string;
  timeout : Z;
  retries : Z;
  delay : Q;
  use_proxy : bool
}.

(* ================================================================== *)
(** ** Exceptions and results *)

(** The two classes of exception the code tells apart: instances of
    [Exception] (caught by [except Exception]) and [KeyboardInterrupt]. *)
Inductive exn :=
| KeyboardInterrupt
| Exception (kind msg : string).

Inductive res (A : Type) :=
| Ok (a : A)
| Raise (e : exn).

Arguments Ok {A} a.
Arguments Raise {A} e.

(** [str(e)] *)
Definition exn_str (e : exn) : string :=
  match e with
  | KeyboardInterrupt => ""
  | Exception _ msg => msg
  end.

(* ================================================================== *)
(** ** The [re] module: patterns and matching *)

Module Re.

Inductive regex :=
| Void
| Eps
| Class (p : ascii -> bool)
| Cat (r1 r2 : regex)
| Alt (r1 r2 : regex)
| Star (r : regex).

(** A literal character, [r?], [r+] and a literal string. *)
Definition Chr (c : ascii) : regex := Class (Ascii.eqb c).
Definition Opt (r : regex) : regex := Alt r Eps.
Definition Plus (r : regex) : regex := Cat r (Star r).
Fixpoint Lit (s : string) : regex :=
  match s with
  | EmptyString => Eps
  | String c t => Cat (Chr c) (Lit t)
  end.

(** [[^...]]: any character not in the listed ones. *)
Definition none_of (cs : list ascii) (c : ascii) : bool :=
  negb (existsb (Ascii.eqb c) cs).
Definition NoneOf (cs : list ascii) : regex := Class (none_of cs).

Fixpoint nullable (r : regex) : bool :=
  match r with
  | Void => false
  | Eps => true
  | Class _ => false
  | Cat r1 r2 => nullable r1 && nullable r2
  | Alt r1 r2 => nullable r1 || nullable r2
  | Star _ => true
  end.

(** The residual of [r] after reading [c]. *)
Fixpoint deriv (c : ascii) (r : regex) : regex :=
  match r with
  | Void => Void
  | Eps => Void
  | Class p => if p c then Eps else Void
  | Cat r1 r2 =>
      if nullable r1
      then Alt (Cat (deriv c r1) r2) (deriv c r2)
      else Cat (deriv c r1) r2
  | Alt r1 r2 => Alt (deriv c r1) (deriv c r2)
  | Star r1 => Cat (deriv c r1) (Star r1)
  end.

(** [r] matches the whole of [s]. *)
Fixpoint fullmatch (r : regex) (s : string) : bool :=
  match s with
  | EmptyString => nullable r
  | String c t => fullmatch (deriv c r) t
  end.

(** The text of [s] without one final newline, when it ends in one. *)
Fixpoint chomp (s : string) : option string :=
  match s with
  | EmptyString => None
  | String c t =>
      match t with
      | EmptyString => if Ascii.eqb c "010"%char then Some EmptyString else None
      | _ => option_map (String c) (chomp t)
      end
  end.

(** [re.compile("^" + body + "$").match(s)] is not [None]: [match]
    anchors at the start, and [$] holds at the end of the string or
    just before a newline that ends it. *)
Definition match_anchored (body : regex) (s : string) : bool :=
  fullmatch body s
  || match chomp s with
     | Some s' => fullmatch body s'
     | None => false
     end.

(** The language of a pattern. *)
Inductive lang : regex -> string -> Prop :=
| lang_eps : lang Eps EmptyString
| lang_class p c : p c = true -> lang (Class p) (String c EmptyString)
| lang_cat r1 r2 s1 s2 :
    lang r1 s1 -> lang r2 s2 -> lang (Cat r1 r2) (String.append s1 s2)
| lang_alt_l r1 r2 s : lang r1 s -> lang (Alt r1 r2) s
| lang_alt_r r1 r2 s : lang r2 s -> lang (Alt r1 r2) s
| lang_star_nil r : lang (Star r) EmptyString
| lang_star_cons r s1 s2 :
    lang r s1 -> lang (Star r) s2 -> lang (Star r) (String.append s1 s2).

End Re.

(* ================================================================== *)
(** ** ProxyPool *)

(** [open(path, encoding="utf-8")] and iteration over the file: either
    the file does not exist, or it yields its lines. *)
Inductive opened :=
| FileNotFoundError
| Lines (ls : list string).

Module ProxyPool.

Record t := mk { raw : list string; idx : nat }.

(** [_regex = re.compile(r"^(?:\w+:\/\/)?(?:[^:@]+:[^@]+@)?[^:@]+:\d+$")];
    [body] is the pattern between the anchors. *)
Definition colon : ascii := ":"%char.
Definition at_ : ascii := "@"%char.

Definition body : Re.regex :=
  Re.Cat (Re.Opt (Re.Cat (Re.Plus (Re.Class Text.isword)) (Re.Lit "://")))
    (Re.Cat
       (Re.Opt
          (Re.Cat (Re.Plus (Re.NoneOf [colon; at_]))
             (Re.Cat (Re.Chr colon)
                (Re.Cat (Re.Plus (Re.NoneOf [at_])) (Re.Chr at_)))))
       (Re.Cat (Re.Plus (Re.NoneOf [colon; at_]))
          (Re.Cat (Re.Chr colon) (Re.Plus (Re.Class Text.isdigit))))).

Definition _regex_match (line : string) : bool := Re.match_anchored body line.

(** The [for line in f] loop of [_load]. *)
Fixpoint _load_lines (ls : list string) (raw : list string) : list string :=
  match ls with
  | [] => raw
  | line :: rest =>
      let line := Text.strip line in
      if Text.truthy line && negb (Text.startswith "#" line) && _regex_match line
      then _load_lines rest (raw ++ [line])
      else _load_lines rest raw
  end.

Definition _load (f : opened) (self : t) : t :=
  match f with
  | Lines ls => mk (_load_lines ls (raw self)) (idx self)
  | FileNotFoundError => self
  end.

(** [ProxyPool(path)], given what opening [path] yields. *)
Definition __init__ (f : opened) : t := _load f (mk [] 0).

(** A proxies dict, in insertion order. *)
Definition dict := list (string * string).

Definition _fmt (proxy : string) : dict :=
  let has_scheme := Text.contains "://" proxy in
  let proto := if has_scheme then Text.split_head "://" proxy else "http" in
  let url :=
    if negb has_scheme then String.append proto (String.append "://" proxy)
    else proxy in
  [("http", url); ("https", url)].

(** [next]: the returned value and the pool afterwards.  [raw[idx]]
    raises [IndexError] out of range. *)
Definition next (self : t) : res (option dict) * t :=
  match raw self with
  | [] => (Ok None, self)
  | _ :: _ =>
      let self' := mk (raw self) ((idx self + 1) mod List.length (raw self)) in
      match nth_error (raw self') (idx self') with
      | Some proxy => (Ok (Some (_fmt proxy)), self')
      | None => (Raise (Exception "IndexError" "list index out of range"), self')
      end
  end.

Definition count (self : t) : nat := List.length (raw self).

(** [k] successive calls of [next]: the values returned, in call
    order, and the pool afterwards. *)
Fixpoint nexts (k : nat) (self : t) : list (res (option dict)) * t :=
  match k with
  | O => ([], self)
  | S k' =>
      let (v, self') := next self in
      let (vs, self'') := nexts k' self' in
      (v :: vs, self'')
  end.

End ProxyPool.

(* ================================================================== *)
(** ** The global random source *)

(** The [random] module's generator: an arbitrary stream of raw draws
    and a cursor.  Every behaviour of the real generator is the
    behaviour of some stream. *)
Record Random := mkRandom { draws : nat -> nat; cursor : nat }.

Module random.

(** A draw in [[0, n)]: an index into a sequence of [n] items. *)
Definition randbelow (n : nat) (g : Random) : nat * Random :=
  (draws g (cursor g) mod n, mkRandom (draws g) (S (cursor g))).

(** [random.randint(a, b)]: [ValueError] on an empty range. *)
Definition randint (a b : nat) (g : Random) : res nat * Random :=
  if b <? a then (Raise (Exception "ValueError" "empty range for randrange()"), g)
  else let (i, g') := randbelow (b + 1 - a) g in (Ok (a + i), g').

(** [random.choices(population, k=k)]: [k] draws with replacement;
    indexing an empty population raises [IndexError]. *)
Fixpoint choices (population : list ascii) (k : nat) (g : Random)
  : res (list ascii) * Random :=
  match k with
  | O => (Ok [], g)
  | S k' =>
      let (i, g1) := randbelow (List.length population) g in
      match nth_error population i with
      | None => (Raise (Exception "IndexError" "list index out of range"), g1)
      | Some c =>
          match choices population k' g1 with
          | (Ok cs, g2) => (Ok (c :: cs), g2)
          | (Raise e, g2) => (Raise e, g2)
          end
      end
  end.

End random.

(* ================================================================== *)
(** ** Generator *)

(** [itertools.product(cs, repeat=n)]: the tuples of length [n] over
    [cs], the rightmost position varying fastest. *)
Fixpoint product (cs : list ascii) (n : nat) : list (list ascii) :=
  match n with
  | O => [[]]
  | S n' => flat_map (fun c => map (cons c) (product cs n')) cs
  end.

(** [range(a, b)] *)
Definition range (a b : nat) : list nat := seq a (b - a).

Module Generator.

(** The value under ["count"]: an integer or the string ["max"]. *)
Inductive cnt := CntMax | CntInt (n : Z).

(** The ["generation"] block of the configuration; a key that is
    absent is [None].  Lengths are natural numbers. *)
Record config := mkconfig {
  cfg_min : option nat;
  cfg_max : option nat;
  cfg_digits : option bool;
  cfg_count : option cnt
}.

Record t := mk {
  min_len : nat;
  max_len : nat;
  charset : list ascii;
  count : Z
}.

Definition ascii_lowercase : list ascii :=
  list_ascii_of_string "abcdefghijklmnopqrstuvwxyz".
Definition digits : list ascii := list_ascii_of_string "0123456789".

(** [cfg.get(key, default)] *)
Definition get {A} (v : option A) (default : A) : A :=
  match v with Some a => a | None => default end.

(** [int(cnt)] *)
Definition int (c : cnt) : res Z :=
  match c with
  | CntInt n => Ok n
  | CntMax =>
      Raise (Exception "ValueError" "invalid literal for int() with base 10: 'max'")
  end.

Definition empty_config : config := mkconfig None None None None.

Definition __init__ (config_ : option config) : res t :=
  let cfg := get config_ empty_config in
  let min_len := get (cfg_min cfg) 6 in
  let max_len := get (cfg_max cfg) 12 in
  let digits_ := get (cfg_digits cfg) true in
  let charset := ascii_lowercase ++ (if digits_ then digits else []) in
  let cnt_ := get (cfg_count cfg) (CntInt 50) in
  let is_max := match cnt_ with CntMax => true | CntInt _ => false end in
  if is_max && (max_len <=? 4) then Ok (mk min_len max_len charset 0)
  else match int cnt_ with
       | Ok n => Ok (mk min_len max_len charset n)
       | Raise e => Raise e
       end.

Definition _all (self : t) : list string :=
  flat_map
    (fun length_ => map Text.join (product (charset self) length_))
    (range (min_len self) (max_len self + 1)).

(** One element of the comprehension in [_random]: the length is drawn
    first (it is an argument of [choices]), then the characters. *)
Definition _random_one (self : t) (g : Random) : res string * Random :=
  match random.randint (min_len self) (max_len self) g with
  | (Raise e, g1) => (Raise e, g1)
  | (Ok k, g1) =>
      match random.choices (charset self) k g1 with
      | (Raise e, g2) => (Raise e, g2)
      | (Ok cs, g2) => (Ok (Text.join cs), g2)
      end
  end.

Fixpoint _random_n (self : t) (n : nat) (g : Random) : res (list string) * Random :=
  match n with
  | O => (Ok [], g)
  | S n' =>
      match _random_one self g with
      | (Raise e, g1) => (Raise e, g1)
      | (Ok s, g1) =>
          match _random_n self n' g1 with
          | (Ok l, g2) => (Ok (s :: l), g2)
          | (Raise e, g2) => (Raise e, g2)
          end
      end
  end.

(** [range(count)] is empty for a negative [count]. *)
Definition _random (self : t) (count_ : Z) (g : Random) : res (list string) * Random :=
  _random_n self (Z.to_nat count_) g.

Definition generate (self : t) (g : Random) : res (list string) * Random :=
  if (count self =? 0)%Z then (Ok (_all self), g) else _random self (count self) g.

(** Position of [c] in the character set. *)
Fixpoint index_of (c : ascii) (cs : list ascii) : nat :=
  match cs with
  | [] => 0
  | x :: rest => if Ascii.eqb x c then 0 else S (index_of c rest)
  end.

(** Lexicographic order on strings, characters compared by their
    position in [cs]. *)
Fixpoint lex_lt (cs : list ascii) (s1 s2 : string) : Prop :=
  match s1, s2 with
  | EmptyString, EmptyString => False
  | EmptyString, String _ _ => True
  | String _ _, EmptyString => False
  | String a t1, String b t2 =>
      index_of a cs < index_of b cs \/ (a = b /\ lex_lt cs t1 t2)
  end.

(** Shorter strings first; strings of one length in [lex_lt] order. *)
Definition enum_lt (cs : list ascii) (s1 s2 : string) : Prop :=
  String.length s1 < String.length s2
  \/ (String.length s1 = String.length s2 /\ lex_lt cs s1 s2).

(** Every character of [s] is one of [cs]. *)
Definition over (cs : list ascii) (s : string) : Prop :=
  Forall (fun c => In c cs) (list_ascii_of_string s).

(** The sum of [|cs|^L] for [L] from [a] to [b] inclusive. *)
Definition sum_pow (n a b : nat) : nat :=
  list_sum (map (fun L => n ^ L) (range a (b + 1))).

End Generator.

(* ================================================================== *)
(** ** BeautifulSoup: the parsed document *)

Module bs4.

(** A node of the parse tree: a string (with [visible = true] for the
    classes [get_text] collects, [NavigableString] and [CData], and
    [false] for comments, scripts and the like) or a tag with its
    children. *)
Inductive node :=
| Str (visible : bool) (s : string)
| Tag (name : string) (children : list node).

(** The [BeautifulSoup] object: the top-level nodes of the document. *)
Definition soup := list node.

(** First tag called [name] in document order, the node itself included. *)
Fixpoint find_node (name : string) (n : node) : option node :=
  match n with
  | Str _ _ => None
  | Tag nm children =>
      if String.eqb nm name then Some n
      else
        (fix first (l : list node) : option node :=
           match l with
           | [] => None
           | c :: l' =>
               match find_node name c with
               | Some r => Some r
               | None => first l'
               end
           end) children
  end.

(** [soup.find(name)] *)
Fixpoint find (name : string) (doc : soup) : option node :=
  match doc with
  | [] => None
  | c :: rest =>
      match find_node name c with
      | Some r => Some r
      | None => find name rest
      end
  end.

(** [tag.get_text(strip=True)]: the visible strings below the tag,
    each stripped, the empty ones dropped, joined with no separator. *)
Fixpoint get_text (n : node) : string :=
  match n with
  | Str visible s =>
      if visible then Text.strip s else EmptyString
  | Tag _ children =>
      (fix all (l : list node) : string :=
         match l with
         | [] => EmptyString
         | c :: l' => String.append (get_text c) (all l')
         end) children
  end.

End bs4.

(* ================================================================== *)
(** ** The environment and the world *)

(** An HTTP response: [ok] is what [raise_for_status] tests. *)
Record response := mkResponse { ok : bool; text : string }.

Inductive get_outcome :=
| Responded (r : response)
| Failed (e : exn).

(** What the program cannot decide: the HTML parser, the network (the
    outcome of the request issued at a given instant) and the arrival
    of SIGINT (whether the handler runs during a given instant). *)
Record Env := mkEnv {
  html_parser : string -> bs4.soup;
  http_get : nat -> string -> option ProxyPool.dict -> get_outcome;
  sigint : nat -> bool
}.

Inductive event :=
| EPrint (level msg : string)
| EGet (url : string) (proxies : option ProxyPool.dict)
| ESleep (seconds : Q)
| EAddTask (total : nat)
| EAdvance.

(** The mutable state: the [_shutdown] event, the clock, the proxy pool
    held by the checker, and what has been done so far, oldest first. *)
Record World := mkWorld {
  shutdown : bool;
  now : nat;
  proxies : option ProxyPool.t;
  trace : list event
}.

Definition emit (e : event) (w : World) : World :=
  mkWorld (shutdown w) (now w) (proxies w) (trace w ++ [e]).

Definition is_get (e : event) : bool :=
  match e with EGet _ _ => true | _ => false end.
Definition is_sleep (e : event) : bool :=
  match e with ESleep _ => true | _ => false end.
Definition is_advance (e : event) : bool :=
  match e with EAdvance => true | _ => false end.
Definition is_net (e : event) : bool := is_get e || is_sleep e.

(** The requests issued so far, the requests and sleeps in order, and
    the number of [progress.advance] calls. *)
Definition gets (w : World) : list event := filter is_get (trace w).
Definition net (w : World) : list event := filter is_net (trace w).
Definition advanced (w : World) : nat := List.length (filter is_advance (trace w)).

(* ================================================================== *)
(** ** Logger *)

Module Logger.

Record t := mk { min_level : nat }.

Definition INFO := 20.
Definition SUCCESS := 25.
Definition WARNING := 30.
Definition ERROR := 40.

Definition _print (self : t) (level : nat) (name msg : string) (w : World) : World :=
  if min_level self <=? level then emit (EPrint name msg) w else w.

Definition info (self : t) := _print self INFO "INFO".
Definition error (self : t) := _print self ERROR "ERROR".
Definition warning (self : t) := _print self WARNING "WARNING".
Definition success (self : t) := _print self SUCCESS "SUCCESS".

End Logger.

(* ================================================================== *)
(** ** Primitive effects *)

Section Effects.

Variable E : Env.

(** One instant passes; a SIGINT that arrives during it runs the
    handler [shutdown], which sets the event.  The event is never
    cleared. *)
Definition tick (w : World) : World :=
  mkWorld (shutdown w || sigint E (now w)) (S (now w)) (proxies w) (trace w).

(** [_shutdown.is_set()] *)
Definition is_set (w : World) : bool * World :=
  let w' := tick w in (shutdown w', w').

(** [self.sess.get(url, ..., proxies=proxy)] *)
Definition sess_get (url : string) (proxy : option ProxyPool.dict) (w : World)
  : get_outcome * World :=
  (http_get E (now w) url proxy, tick (emit (EGet url proxy) w)).

(** [time.sleep(seconds)] *)
Definition sleep (seconds : Q) (w : World) : World :=
  tick (emit (ESleep seconds) w).

End Effects.

(** Control after one pass through a loop body. *)
Inductive step (A : Type) :=
| Done (r : res A)
| Again.

Arguments Done {A} r.
Arguments Again {A}.

(* ================================================================== *)
(** ** Checker *)

Module Checker.

Record t := mk { cfg : Config; log : Logger.t }.

Definition URL (username_ : string) : string :=
  String.append "https://guns.lol/" username_.
Definition BAN : string := "This user has been banned from".
Definition AVAILABLE_ : string := "Username not found".
Definition CLAIM : string := "Claim this username".

Section Methods.

Variable E : Env.
Variable self : t.

(** [self.proxies.next() if self.proxies and self.cfg.use_proxy else None] *)
Definition _proxy (w : World) : res (option ProxyPool.dict) * World :=
  match proxies w with
  | Some pool =>
      if use_proxy (cfg self) then
        let (r, pool') := ProxyPool.next pool in
        (r, mkWorld (shutdown w) (now w) (Some pool') (trace w))
      else (Ok None, w)
  | None => (Ok None, w)
  end.

(** The [except Exception as e] handler of [fetch]. *)
Definition fetch_failed (username_ : string) (attempt : Z) (e : exn) (w : World)
  : step string * World :=
  let w1 :=
    Logger.error (log self)
      (String.append "Attempt "
         (String.append (Text.of_Z attempt)
            (String.append " failed for "
               (String.append username_ (String.append ": " (exn_str e))))))
      w in
  if (retries (cfg self) <=? attempt)%Z then (Done (Raise e), w1)
  else (Again, sleep E (Qmult (delay (cfg self)) (inject_Z attempt)) w1).

(** The body of the [while] loop of [fetch]; [attempt] is the value
    after [attempt += 1]. *)
Definition fetch_body (username_ : string) (attempt : Z) (w : World)
  : step string * World :=
  match _proxy w with
  | (Raise e, w1) => (Done (Raise e), w1)
  | (Ok proxy, w1) =>
      match sess_get E (URL username_) proxy w1 with
      | (Responded r, w2) =>
          if ok r then (Done (Ok (text r)), w2)
          else fetch_failed username_ attempt (Exception "HTTPError" "HTTP Error") w2
      | (Failed KeyboardInterrupt, w2) => (Done (Raise KeyboardInterrupt), w2)
      | (Failed (Exception k m), w2) =>
          fetch_failed username_ attempt (Exception k m) w2
      end
  end.

(** [while attempt < retries and not _shutdown.is_set(): ...; return ""].
    [fuel] bounds the number of passes; [retries - attempt] passes
    are enough (lemma [fetch_loop_fuel]). *)
Fixpoint fetch_loop (fuel : nat) (username_ : string) (attempt : Z) (w : World)
  : res string * World :=
  match fuel with
  | O => (Ok EmptyString, w)
  | S fuel' =>
      if (attempt <? retries (cfg self))%Z then
        let (stop, w1) := is_set E w in
        if stop then (Ok EmptyString, w1)
        else
          match fetch_body username_ (attempt + 1) w1 with
          | (Done r, w2) => (r, w2)
          | (Again, w2) => fetch_loop fuel' username_ (attempt + 1) w2
          end
      else (Ok EmptyString, w)
  end.

Definition fetch (username_ : string) (w : World) : res string * World :=
  fetch_loop (Z.to_nat (retries (cfg self))) username_ 0 w.

Definition parse (html : string) : Status :=
  let soup := html_parser E html in
  match bs4.find "h1" soup with
  | None => TAKEN
  | Some h1 =>
      let h1 := bs4.get_text h1 in
      if Text.contains BAN h1 then BANNED
      else if Text.contains AVAILABLE_ h1 then
        match bs4.find "h3" soup with
        | Some h3 =>
            if Text.contains CLAIM (bs4.get_text h3) then AVAILABLE else TAKEN
        | None => TAKEN
        end
      else TAKEN
  end.

Definition check (username_ : string) (w : World) : res Result * World :=
  match fetch username_ w with
  | (Raise e, w1) => (Raise e, w1)
  | (Ok html, w1) =>
      let status_ := parse html in
      let method :=
        match status_ with
        | AVAILABLE => Logger.success (log self)
        | TAKEN => Logger.error (log self)
        | BANNED => Logger.warning (log self)
        end in
      let w2 :=
        method (String.append username_
                  (String.append " is " (Status_value status_))) w1 in
      (Ok (mkResult username_ status_ (now w2)), w2)
  end.

(** The [for username in usernames] loop of [batch]; [results] is
    the list built so far. *)
Fixpoint batch_loop (usernames : list string) (results : list Result) (w : World)
  : list Result * World :=
  match usernames with
  | [] => (results, w)
  | username_ :: rest =>
      let (stop, w1) := is_set E w in
      if stop then
        (results, Logger.warning (log self) "Shutdown requested, stopping..." w1)
      else
        match check username_ w1 with
        | (Ok r, w2) => batch_loop rest (results ++ [r]) (emit EAdvance w2)
        | (Raise KeyboardInterrupt, w2) =>
            (results,
             emit EAdvance (Logger.warning (log self) "Interrupted by user" w2))
        | (Raise e, w2) =>
            let w3 :=
              Logger.error (log self)
                (String.append "Failed to check "
                   (String.append username_ (String.append ": " (exn_str e))))
                w2 in
            batch_loop rest
              (results ++ [mkResult username_ TAKEN (now w3)])
              (emit EAdvance w3)
        end
  end.

Definition batch (usernames : list string) (w : World) : list Result * World :=
  batch_loop usernames [] (emit (EAddTask (List.length usernames)) w).

(** The states in which control stands at the head of the [while]
    loop of [fetch username_] started in [w0]: at the start, and
    after each attempt that failed and was followed by a sleep. *)
Inductive at_head (username_ : string) (w0 : World) : Z -> World -> Prop :=
| head_start : at_head username_ w0 0 w0
| head_retry attempt w w2 :
    at_head username_ w0 attempt w ->
    (attempt < retries (cfg self))%Z ->
    fst (is_set E w) = false ->
    fetch_body username_ (attempt + 1) (snd (is_set E w)) = (Again, w2) ->
    at_head username_ w0 (attempt + 1) w2.

End Methods.

End Checker.

(** The same environment in which SIGINT never arrives. *)
Definition quiet (E : Env) : Env :=
  mkEnv (html_parser E) (http_get E) (fun _ => false).

(* ================================================================== *)
(** * Vocabulary of the properties *)

(** The network never answers with [KeyboardInterrupt]. *)
Definition no_interrupt (E : Env) : Prop :=
  forall t url p, http_get E t url p <> Failed KeyboardInterrupt.

(** The pattern [[scheme://][user:pass@]host:port] spelled out, to be
    compared with the matcher run on the compiled pattern. *)
Module ProxyLine.

Definition all_in (P : ascii -> Prop) (s : string) : Prop :=
  Forall P (list_ascii_of_string s).

(** A non-empty run of characters satisfying [P]. *)
Definition run (P : ascii -> Prop) (s : string) : Prop :=
  s <> EmptyString /\ all_in P s.

Definition word_char (c : ascii) : Prop := Text.isword c = true.
Definition digit_char (c : ascii) : Prop := Text.isdigit c = true.
Definition not_at (c : ascii) : Prop := c <> "@"%char.
Definition not_colon_at (c : ascii) : Prop := c <> ":"%char /\ c <> "@"%char.

(** Nothing, or [scheme://] with [scheme] a run of word characters. *)
Definition scheme_part (s : string) : Prop :=
  s = EmptyString \/ exists scheme, s = String.append scheme "://" /\ run word_char scheme.

(** Nothing, or [user:pass@]. *)
Definition auth_part (s : string) : Prop :=
  s = EmptyString
  \/ exists user pass,
       s = String.append user (String.append ":" (String.append pass "@"))
       /\ run not_colon_at user /\ run not_at pass.

Definition shape (line : string) : Prop :=
  exists scheme auth host port,
    line = String.append scheme
             (String.append auth (String.append host (String.append ":" port)))
    /\ scheme_part scheme /\ auth_part auth
    /\ run not_colon_at host /\ run digit_char port.

(** A stripped line that the pool keeps. *)
Definition retained (line : string) : Prop :=
  line <> EmptyString /\ Text.startswith "#" line = false /\ shape line.

(** [kept] is [all] with exactly the elements satisfying [P] retained,
    in order and with their multiplicity. *)
Inductive selects (P : string -> Prop) : list string -> list string -> Prop :=
| selects_nil : selects P [] []
| selects_keep x all kept : P x -> selects P all kept -> selects P (x :: all) (x :: kept)
| selects_drop x all kept : ~ P x -> selects P all kept -> selects P (x :: all) kept.

End ProxyLine.

(** The strings of length [n] over [cs], in the order [_all] appends them. *)
Definition words (cs : list ascii) (n : nat) : list string :=
  map Text.join (product cs n).

Fixpoint nodupb (l : list ascii) : bool :=
  match l with
  | [] => true
  | x :: rest => negb (existsb (Ascii.eqb x) rest) && nodupb rest
  end.

(** What one sampled string is required to be. *)
Definition sample_ok (g : Generator.t) (s : string) : Prop :=
  Generator.min_len g <= String.length s <= Generator.max_len g
  /\ Generator.over (Generator.charset g) s.

(** [runs E w w']: [w'] is reached from [w] by instants passing, by
    events other than [progress.advance], and by pool rotation. *)
Inductive runs (E : Env) : World -> World -> Prop :=
| runs_refl w : runs E w w
| runs_tick w w' : runs E (tick E w) w' -> runs E w w'
| runs_emit e w w' : is_advance e = false -> runs E (emit e w) w' -> runs E w w'
| runs_pool pool w w' :
    runs E (mkWorld (shutdown w) (now w) pool (trace w)) w' -> runs E w w'.

(** An attempt that fails with a transport or HTTP-status error. *)
Definition failing (o : get_outcome) : Prop :=
  match o with
  | Responded r => ok r = false
  | Failed (Exception _ _) => True
  | Failed KeyboardInterrupt => False
  end.

(* ================================================================== *)
(** * Sample configurations, networks and runs *)

(** Concrete pages, as a parser would hand them over. *)
Module Pages.

Definition tag_text (name body : string) : bs4.node :=
  bs4.Tag name [bs4.Str true body].

Definition banned_page : bs4.soup :=
  [bs4.Tag "html" [bs4.Tag "body"
     [tag_text "h1" " This user has been banned from guns.lol "]]].

Definition claimable_page : bs4.soup :=
  [bs4.Tag "html" [bs4.Tag "body"
     [bs4.Tag "div" [tag_text "h1" "Username not found"];
      tag_text "h3" "Claim this username now"]]].

Definition not_found_page : bs4.soup :=
  [bs4.Tag "html" [bs4.Tag "body" [tag_text "h1" "Username not found"]]].

Definition profile_page : bs4.soup :=
  [bs4.Tag "html" [bs4.Tag "body" [tag_text "h1" "someone"]]].

(** The second [h3] is not the one [soup.find] returns. *)
Definition late_claim_page : bs4.soup :=
  [tag_text "h1" "Username not found";
   tag_text "h3" "Sorry"; tag_text "h3" "Claim this username"].

(** An environment whose parser answers by the name of the page. *)
Definition parser (html : string) : bs4.soup :=
  if String.eqb html "banned" then banned_page
  else if String.eqb html "claimable" then claimable_page
  else if String.eqb html "not found" then not_found_page
  else if String.eqb html "profile" then profile_page
  else if String.eqb html "late claim" then late_claim_page
  else [].

Definition env : Env :=
  mkEnv parser (fun _ _ _ => Responded (mkResponse true "profile")) (fun _ => false).

End Pages.

Definition newline : string := String "010"%char EmptyString.

Definition sample_lines : list string :=
  map (fun l => String.append l newline)
    ["# proxies"; ""; "  1.2.3.4:8080  "; "http://user:pw@host.example:3128";
     "no-port.example"; "host:port"; ":80"; "#5.6.7.8:80"; "socks5://9.9.9.9:1080"].

Definition three_proxies : ProxyPool.t :=
  ProxyPool.__init__ (Lines ["10.0.0.1:80"; "socks5://10.0.0.2:1080"; "10.0.0.3:81"]).

Definition letters_1_2 : option Generator.config :=
  Some (Generator.mkconfig (Some 1) (Some 2) (Some false) (Some Generator.CntMax)).

Definition counting : Random := mkRandom (fun n => n) 0.

Definition sample_3 : option Generator.config :=
  Some (Generator.mkconfig (Some 2) (Some 3) None (Some (Generator.CntInt 3))).

Definition zero_count : option Generator.config :=
  Some (Generator.mkconfig (Some 1) (Some 1) (Some false) (Some (Generator.CntInt 0))).

Definition inverted_range : option Generator.config :=
  Some (Generator.mkconfig (Some 3) (Some 2) (Some false) (Some (Generator.CntInt 1))).

(** With the default [max] of 12 as well. *)
Definition max_default_range : Generator.config :=
  Generator.mkconfig None None None (Some Generator.CntMax).

Definition max_5 : Generator.config :=
  Generator.mkconfig (Some 1) (Some 5) (Some true) (Some Generator.CntMax).

(** A service that refuses every connection, the default configuration
    ([retries = 3], [delay = 1.0], no proxies) and a fresh world. *)
Definition down_env : Env :=
  mkEnv Pages.parser
    (fun _ _ _ => Failed (Exception "ConnectionError" "Connection refused"))
    (fun _ => false).

Definition default_checker : Checker.t :=
  Checker.mk (mkConfig "safari_ios" 10 3 (1 # 1) false) (Logger.mk 20).

Definition fresh : World := mkWorld false 0 None [].

(** A network on which ["available_name"] is free, ["gone"] cannot be
    fetched and every other name has a profile. *)
Definition mixed_env : Env :=
  mkEnv Pages.parser
    (fun _ url _ =>
       if String.eqb url (Checker.URL "available_name")
       then Responded (mkResponse true "claimable")
       else if String.eqb url (Checker.URL "gone")
       then Failed (Exception "Timeout" "timed out")
       else Responded (mkResponse true "profile"))
    (fun _ => false).

Definition three_names : list string := ["ab"; "gone"; "available_name"].

(** Five names, every one with a profile; SIGINT arrives at instant 6,
    when two names have been checked (three instants each: the two
    readings of the event and the request). *)
Definition sigint_at_6 : Env :=
  mkEnv Pages.parser (fun _ _ _ => Responded (mkResponse true "profile"))
    (fun t => t =? 6).

Definition five_names : list string := ["a"; "b"; "c"; "d"; "e"].

Definition already_set : World := mkWorld true 0 None [].

(** The service is down and SIGINT arrives at instant 2, during the
    sleep that follows the first failed attempt. *)
Definition down_sigint_2 : Env :=
  mkEnv Pages.parser
    (fun _ _ _ => Failed (Exception "ConnectionError" "Connection refused"))
    (fun t => t =? 2).

Definition after_first_attempt : World :=
  snd (Checker.fetch_body down_sigint_2 default_checker "ab" 1
         (snd (is_set down_sigint_2 fresh))).

(* ================================================================== *)
(** * The rest of the source *)

(** [random.choice(seq)]: [IndexError] on an empty sequence, otherwise
    the item at a drawn index. *)
Definition random_choice (seq_ : list string) (g : Random) : res string * Random :=
  match seq_ with
  | [] => (Raise (Exception "IndexError" "Cannot choose from an empty sequence"), g)
  | _ :: _ =>
      let (i, g') := random.randbelow (List.length seq_) g in
      match nth_error seq_ i with
      | Some x => (Ok x, g')
      | None => (Raise (Exception "IndexError" "list index out of range"), g')
      end
  end.

(** [ProxyPool.random]:
    [self._fmt(random.choice(self.raw)) if self.raw else None]. *)
Definition ProxyPool_random (self : ProxyPool.t) (g : Random)
  : res (option ProxyPool.dict) * Random :=
  match ProxyPool.raw self with
  | [] => (Ok None, g)
  | _ :: _ =>
      match random_choice (ProxyPool.raw self) g with
      | (Ok proxy, g') => (Ok (Some (ProxyPool._fmt proxy)), g')
      | (Raise e, g') => (Raise e, g')
      end
  end.

(** [Logger.LEVELS] *)
Definition Logger_LEVELS : list (string * nat) :=
  [("DEBUG", 10); ("INFO", 20); ("SUCCESS", 25); ("WARNING", 30); ("ERROR", 40)].

(** [d.get(key, default)] on a dict with string keys. *)
Fixpoint dict_get (A : Type) (d : list (string * A)) (key : string) (default : A) : A :=
  match d with
  | [] => default
  | (k, v) :: rest => if String.eqb k key then v else dict_get rest key default
  end.

(** [Logger(level)]: [self.min_level = self.LEVELS.get(level.upper(), 20)].
    [upper] stands for [str.upper], which the model does not define. *)
Definition Logger_init (upper : string -> string) (level : string) : Logger.t :=
  Logger.mk (dict_get Logger_LEVELS (upper level) 20).

(** The sleeps performed so far, in order. *)
Definition sleeps (w : World) : list event := filter is_sleep (trace w).

(** A request that goes out through a proxy. *)
Definition via_proxy (e : event) : bool :=
  match e with
  | EGet _ (Some _) => true
  | _ => false
  end.

(** A network that times out until instant 4 and answers from then on. *)
Definition second_try : Env :=
  mkEnv Pages.parser
    (fun t _ _ =>
       if t <? 4 then Failed (Exception "Timeout" "timed out")
       else Responded (mkResponse true "claimable"))
    (fun _ => false).

(** A checker that is allowed no attempt at all. *)
Definition no_retry_checker : Checker.t :=
  Checker.mk (mkConfig "safari_ios" 10 0 (1 # 1) false) (Logger.mk 20).

(** A network on which the request for ["b"] is interrupted. *)
Definition interrupt_on_b : Env :=
  mkEnv Pages.parser
    (fun _ url _ =>
       if String.eqb url (Checker.URL "b") then Failed KeyboardInterrupt
       else Responded (mkResponse true "profile"))
    (fun _ => false).

(** A request that goes out directly. *)
Definition direct (e : event) : Prop := exists url, e = EGet url None.

(** The default configuration with proxies switched on, and a world
    holding the pool of three entries. *)
Definition proxy_checker : Checker.t :=
  Checker.mk (mkConfig "safari_ios" 10 3 (1 # 1) true) (Logger.mk 20).

Definition pooled : World := mkWorld false 0 (Some three_proxies) [].

(** The parsed configuration file, assumed well typed: the ["app"]
    block with its optional keys, and the ["generation"] block, which
    may hold keys other than the four the generator reads. *)
Record app_block := mkapp {
  app_browser : option string;
  app_timeout : option Z;
  app_retries : option Z;
  app_delay : option Q;
  app_use_proxy : option bool
}.

Record generation := mkgeneration {
  gen_keys : Generator.config;
  gen_other_keys : bool
}.

Record json := mkjson {
  json_app : option app_block;
  json_generation : option generation
}.

Definition empty_app : app_block := mkapp None None None None None.

(** [Config.load], given what reading and parsing the file yields; the
    [generator] field of the result is returned beside the other
    fields. *)
Definition Config_load (data : res json) : res (Config * option generation) :=
  match data with
  | Raise e => Raise e
  | Ok d =>
      let app := Generator.get (json_app d) empty_app in
      Ok (mkConfig
            (Generator.get (app_browser app) "safari_ios")
            (Generator.get (app_timeout app) 10%Z)
            (Generator.get (app_retries app) 3%Z)
            (Generator.get (app_delay app) (1 # 1)%Q)
            (Generator.get (app_use_proxy app) false),
          json_generation d)
  end.

(** [bool(d)] for the generation dict: it has at least one key. *)
Definition generation_truthy (gen : generation) : bool :=
  gen_other_keys gen
  || match Generator.cfg_min (gen_keys gen), Generator.cfg_max (gen_keys gen),
           Generator.cfg_digits (gen_keys gen), Generator.cfg_count (gen_keys gen) with
     | None, None, None, None => false
     | _, _, _, _ => true
     end.

(** The text of the banner panel. *)
Definition banner_text : string := "guns.lol checker v1.0.0 by populated".

(** The exit code of the two [except] clauses of [main]. *)
Definition exit_of (e : exn) : Z :=
  match e with
  | KeyboardInterrupt => 130%Z
  | Exception _ _ => 1%Z
  end.

(** [proxies = ProxyPool() if cfg.use_proxy else None] *)
Definition main_proxies (cfg_ : Config) (proxy_file : opened) : option ProxyPool.t :=
  if use_proxy cfg_ then Some (ProxyPool.__init__ proxy_file) else None.

(** [log.banner()] and
    [if proxies and proxies.count(): log.info(f"Loaded {proxies.count()} proxies")];
    the banner is recorded as a print at level ["PANEL"]. *)
Definition main_announce (log_ : Logger.t) (proxies_ : option ProxyPool.t) (w : World)
  : World :=
  let w1 := emit (EPrint "PANEL" banner_text) w in
  match proxies_ with
  | Some pool =>
      if 0 <? ProxyPool.count pool
      then Logger.info log_
             (String.append "Loaded "
                (String.append (Text.of_nat (ProxyPool.count pool)) " proxies"))
             w1
      else w1
  | None => w1
  end.

(** [generator = Generator(cfg.generator) if cfg.generator else None] *)
Definition main_generator (generation_ : option generation) : option (res Generator.t) :=
  match generation_ with
  | Some gen =>
      if generation_truthy gen
      then Some (Generator.__init__ (Some (gen_keys gen)))
      else None
  | None => None
  end.

(** The last lines of [main]: the names found available and the
    summary line. *)
Definition main_available (results : list Result) : list string :=
  map username (filter (fun r => Status_eqb (status r) AVAILABLE) results).

Definition main_summary (log_ : Logger.t) (n : nat) (available : list string) (w : World)
  : World :=
  match available with
  | [] =>
      Logger.warning log_
        (String.append "None available out of "
           (String.append (Text.of_nat n) " checked")) w
  | _ :: _ =>
      Logger.success log_
        (String.append "Available: " (String.concat ", " available)) w
  end.

(** [main], given the parsed configuration, what opening
    [proxies.txt] yields and the random source: the exit code and the
    world afterwards.  The logger is [Logger(level="INFO")], whose
    threshold is 20. *)
Definition main (E : Env) (data : res json) (proxy_file : opened) (g : Random)
  (w : World) : Z * World :=
  match Config_load data with
  | Raise e => (exit_of e, w)
  | Ok (cfg_, generation_) =>
      let log_ := Logger.mk 20 in
      let proxies_ := main_proxies cfg_ proxy_file in
      let w2 := main_announce log_ proxies_ w in
      match main_generator generation_ with
      | None => (1%Z, Logger.error log_ "No generator config found" w2)
      | Some (Raise e) => (exit_of e, w2)
      | Some (Ok generator_) =>
          match Generator.generate generator_ g with
          | (Raise e, _) => (exit_of e, w2)
          | (Ok usernames, _) =>
              let w3 :=
                Logger.info log_
                  (String.append "Checking "
                     (String.append (Text.of_nat (List.length usernames)) " usernames"))
                  w2 in
              let checker := Checker.mk cfg_ log_ in
              let w4 := mkWorld (shutdown w3) (now w3) proxies_ (trace w3) in
              let (results, w5) := Checker.batch E checker usernames w4 in
              (0%Z,
               main_summary log_ (List.length usernames) (main_available results) w5)
          end
      end
  end.

(** A configuration asking for all names up to length 5, and one asking
    for two sampled names of length 2. *)
Definition config_max_5 : res json :=
  Ok (mkjson None (Some (mkgeneration max_5 false))).

Definition config_two_names : res json :=
  Ok (mkjson (Some (mkapp None None (Some 2%Z) None None))
        (Some (mkgeneration
                 (Generator.mkconfig (Some 2) (Some 2) (Some false)
                    (Some (Generator.CntInt 2)))
                 false))).

(* ================================================================== *)
(** * Properties *)

(** ** Classification ([Checker.parse]) *)

Section Parse.

Variable E : Env.
Variable self : Checker.t.

Let h1_of (html : string) := bs4.find "h1" (html_parser E html).
Let h3_of (html : string) := bs4.find "h3" (html_parser E html).

Lemma parse_no_h1 html :
  h1_of html = None -> Checker.parse E html = TAKEN.
Proof.
  unfold h1_of, Checker.parse. intros H. now rewrite H.
Qed.

Lemma parse_banned html h1 :
  h1_of html = Some h1 ->
  Text.contains Checker.BAN (bs4.get_text h1) = true ->
  Checker.parse E html = BANNED.
Proof.
  unfold h1_of, Checker.parse. intros H Hb. now rewrite H, Hb.
Qed.

Lemma parse_available html h1 h3 :
  h1_of html = Some h1 ->
  Text.contains Checker.BAN (bs4.get_text h1) = false ->
  Text.contains Checker.AVAILABLE_ (bs4.get_text h1) = true ->
  h3_of html = Some h3 ->
  Text.contains Checker.CLAIM (bs4.get_text h3) = true ->
  Checker.parse E html = AVAILABLE.
Proof.
  unfold h1_of, h3_of, Checker.parse. intros H Hb Ha H3 Hc.
  now rewrite H, Hb, Ha, H3, Hc.
Qed.

Lemma parse_otherwise html h1 :
  h1_of html = Some h1 ->
  Text.contains Checker.BAN (bs4.get_text h1) = false ->
  (Text.contains Checker.AVAILABLE_ (bs4.get_text h1) = false
   \/ h3_of html = None
   \/ exists h3, h3_of html = Some h3
                 /\ Text.contains Checker.CLAIM (bs4.get_text h3) = false) ->
  Checker.parse E html = TAKEN.
Proof.
  unfold h1_of, h3_of, Checker.parse. intros H Hb Hrest. rewrite H, Hb.
  destruct (Text.contains Checker.AVAILABLE_ (bs4.get_text h1)) eqn:Ha; [|reflexivity].
  destruct Hrest as [Hf | [Hn | [h3 [H3 Hc]]]].
  - discriminate.
  - now rewrite Hn.
  - now rewrite H3, Hc.
Qed.

End Parse.


Example parse_examples :
  Checker.parse Pages.env "banned" = BANNED
  /\ Checker.parse Pages.env "claimable" = AVAILABLE
  /\ Checker.parse Pages.env "not found" = TAKEN
  /\ Checker.parse Pages.env "profile" = TAKEN
  /\ Checker.parse Pages.env "late claim" = TAKEN
  /\ Checker.parse Pages.env "" = TAKEN.
Proof. repeat split; reflexivity. Qed.

(* ================================================================== *)
(** ** Strings *)

Lemma append_empty_r (s : string) : String.append s EmptyString = s.
Proof. induction s as [|c s IH]; simpl; [reflexivity | now rewrite IH]. Qed.

Lemma append_assoc (a b c : string) :
  String.append (String.append a b) c = String.append a (String.append b c).
Proof. induction a as [|x a IH]; simpl; [reflexivity | now rewrite IH]. Qed.

Lemma append_is_empty (a b : string) :
  String.append a b = EmptyString -> a = EmptyString /\ b = EmptyString.
Proof. destruct a; simpl; [auto | discriminate]. Qed.

Lemma append_is_cons (a b : string) (c : ascii) (s : string) :
  String.append a b = String c s ->
  (a = EmptyString /\ b = String c s)
  \/ exists a', a = String c a' /\ s = String.append a' b.
Proof.
  destruct a as [|x a]; simpl; intros H.
  - now left.
  - right. injection H as -> <-. now exists a.
Qed.

Lemma list_ascii_append (a b : string) :
  list_ascii_of_string (String.append a b)
  = list_ascii_of_string a ++ list_ascii_of_string b.
Proof. induction a as [|x a IH]; simpl; [reflexivity | now rewrite IH]. Qed.

(* ================================================================== *)
(** ** The matcher decides the language of a pattern *)

Lemma lang_void_inv (s : string) : ~ Re.lang Re.Void s.
Proof. intros H; inversion H. Qed.

Lemma lang_eps_inv (s : string) : Re.lang Re.Eps s -> s = EmptyString.
Proof. intros H; now inversion H. Qed.

Lemma lang_class_inv (p : ascii -> bool) (s : string) :
  Re.lang (Re.Class p) s -> exists c, s = String c EmptyString /\ p c = true.
Proof. intros H; inversion H; subst; eauto. Qed.

Lemma lang_cat_inv (r1 r2 : Re.regex) (s : string) :
  Re.lang (Re.Cat r1 r2) s ->
  exists s1 s2, s = String.append s1 s2 /\ Re.lang r1 s1 /\ Re.lang r2 s2.
Proof. intros H; inversion H; subst; eauto. Qed.

Lemma lang_alt_inv (r1 r2 : Re.regex) (s : string) :
  Re.lang (Re.Alt r1 r2) s -> Re.lang r1 s \/ Re.lang r2 s.
Proof. intros H; inversion H; subst; auto. Qed.

Lemma nullable_lang (r : Re.regex) :
  Re.nullable r = true <-> Re.lang r EmptyString.
Proof.
  induction r as [| |p|r1 IH1 r2 IH2|r1 IH1 r2 IH2|r IH]; simpl.
  - split; [discriminate | intros H; now apply lang_void_inv in H].
  - split; [constructor | reflexivity].
  - split; [discriminate|].
    intros H. apply lang_class_inv in H as [c [Hc _]]. discriminate.
  - rewrite andb_true_iff, IH1, IH2. split.
    + intros [H1 H2]. exact (Re.lang_cat H1 H2).
    + intros H. apply lang_cat_inv in H as [s1 [s2 [Heq [H1 H2]]]].
      symmetry in Heq. apply append_is_empty in Heq as [-> ->]. now split.
  - rewrite orb_true_iff, IH1, IH2. split.
    + intros [H|H]; [now apply Re.lang_alt_l | now apply Re.lang_alt_r].
    + apply lang_alt_inv.
  - split; [constructor | reflexivity].
Qed.

(** A non-empty word of [r*] starts with a non-empty word of [r]. *)
Lemma lang_star_cons_inv (r : Re.regex) (c : ascii) (s : string) :
  Re.lang (Re.Star r) (String c s) ->
  exists s1 s2, s = String.append s1 s2
                /\ Re.lang r (String c s1) /\ Re.lang (Re.Star r) s2.
Proof.
  intros H. remember (Re.Star r) as r' eqn:Er. remember (String c s) as w eqn:Ew.
  revert s Ew. induction H as [| | | | | |r0 s1 s2 H1 _ H2 IH2]; intros t Ew;
    try discriminate.
  injection Er as ->.
  apply append_is_cons in Ew as [[-> ->] | [a' [-> ->]]].
  - now apply IH2.
  - now exists a', s2.
Qed.

Lemma deriv_lang (r : Re.regex) (c : ascii) (s : string) :
  Re.lang (Re.deriv c r) s <-> Re.lang r (String c s).
Proof.
  revert s. induction r as [| |p|r1 IH1 r2 IH2|r1 IH1 r2 IH2|r IH]; intros s; simpl.
  - split; intros H; now apply lang_void_inv in H.
  - split; intros H; [now apply lang_void_inv in H|].
    apply lang_eps_inv in H. discriminate.
  - destruct (p c) eqn:Hp; split; intros H.
    + apply lang_eps_inv in H as ->. now constructor.
    + apply lang_class_inv in H as [c' [Heq _]]. injection Heq as _ ->. constructor.
    + now apply lang_void_inv in H.
    + apply lang_class_inv in H as [c' [Heq Hc']]. injection Heq as <- _. congruence.
  - destruct (Re.nullable r1) eqn:Hn; split; intros H.
    + apply lang_alt_inv in H as [H|H].
      * apply lang_cat_inv in H as [s1 [s2 [-> [Ha Hb]]]].
        apply IH1 in Ha. exact (Re.lang_cat Ha Hb).
      * apply IH2 in H. apply nullable_lang in Hn.
        exact (Re.lang_cat Hn H).
    + apply lang_cat_inv in H as [s1 [s2 [Heq [Ha Hb]]]]. symmetry in Heq.
      apply append_is_cons in Heq as [[-> ->] | [a' [-> ->]]].
      * apply Re.lang_alt_r. now apply IH2.
      * apply Re.lang_alt_l. apply IH1 in Ha. exact (Re.lang_cat Ha Hb).
    + apply lang_cat_inv in H as [s1 [s2 [-> [Ha Hb]]]].
      apply IH1 in Ha. exact (Re.lang_cat Ha Hb).
    + apply lang_cat_inv in H as [s1 [s2 [Heq [Ha Hb]]]]. symmetry in Heq.
      apply append_is_cons in Heq as [[-> ->] | [a' [-> ->]]].
      * apply nullable_lang in Ha. congruence.
      * apply IH1 in Ha. exact (Re.lang_cat Ha Hb).
  - split; intros H; apply lang_alt_inv in H as [H|H];
      solve [apply Re.lang_alt_l; now apply IH1 | apply Re.lang_alt_r; now apply IH2].
  - split; intros H.
    + apply lang_cat_inv in H as [s1 [s2 [-> [Ha Hb]]]].
      apply IH in Ha. exact (Re.lang_star_cons Ha Hb).
    + apply lang_star_cons_inv in H as [s1 [s2 [-> [Ha Hb]]]].
      apply IH in Ha. exact (Re.lang_cat Ha Hb).
Qed.

Theorem fullmatch_lang (r : Re.regex) (s : string) :
  Re.fullmatch r s = true <-> Re.lang r s.
Proof.
  revert r. induction s as [|c s IH]; intros r; simpl.
  - apply nullable_lang.
  - rewrite IH. apply deriv_lang.
Qed.

(* ================================================================== *)
(** ** Proxy lines: the pattern, read as a shape *)

Section ClassLanguages.

Variable p : ascii -> bool.
Variable P : ascii -> Prop.
Hypothesis p_spec : forall c, p c = true <-> P c.

Lemma lang_star_class (s : string) :
  Re.lang (Re.Star (Re.Class p)) s <-> ProxyLine.all_in P s.
Proof.
  unfold ProxyLine.all_in. split.
  - intros H. remember (Re.Star (Re.Class p)) as r eqn:Er.
    induction H as [| | | | | |r0 s1 s2 H1 _ H2 IH2]; try discriminate.
    + constructor.
    + injection Er as ->. rewrite list_ascii_append. apply Forall_app. split.
      * apply lang_class_inv in H1 as [c [-> Hc]]. simpl. constructor; [|constructor].
        now apply p_spec.
      * now apply IH2.
  - induction s as [|c s IH]; simpl; intros H.
    + constructor.
    + inversion H as [|? ? Hc Hs]; subst.
      change (String c s) with (String.append (String c EmptyString) s).
      apply Re.lang_star_cons; [|now apply IH].
      constructor. now apply p_spec.
Qed.

Lemma lang_plus_class (s : string) :
  Re.lang (Re.Plus (Re.Class p)) s <-> ProxyLine.run P s.
Proof.
  unfold Re.Plus, ProxyLine.run. split.
  - intros H. apply lang_cat_inv in H as [s1 [s2 [-> [H1 H2]]]].
    apply lang_class_inv in H1 as [c [-> Hc]]. simpl. split; [discriminate|].
    unfold ProxyLine.all_in. simpl. constructor; [now apply p_spec|].
    now apply lang_star_class.
  - intros [Hne H]. destruct s as [|c s]; [congruence|].
    unfold ProxyLine.all_in in H. simpl in H. inversion H as [|? ? Hc Hs]; subst.
    change (String c s) with (String.append (String c EmptyString) s).
    apply Re.lang_cat; [constructor; now apply p_spec | now apply lang_star_class].
Qed.

End ClassLanguages.

Lemma lang_cat_iff (r1 r2 : Re.regex) (s : string) :
  Re.lang (Re.Cat r1 r2) s
  <-> exists s1 s2, s = String.append s1 s2 /\ Re.lang r1 s1 /\ Re.lang r2 s2.
Proof.
  split; [apply lang_cat_inv|]. intros [s1 [s2 [-> [H1 H2]]]]. now constructor.
Qed.

Lemma lang_opt_iff (r : Re.regex) (s : string) :
  Re.lang (Re.Opt r) s <-> s = EmptyString \/ Re.lang r s.
Proof.
  unfold Re.Opt. split.
  - intros H. apply lang_alt_inv in H as [H|H]; [now right|].
    left. now apply lang_eps_inv.
  - intros [->|H]; [apply Re.lang_alt_r; constructor | now apply Re.lang_alt_l].
Qed.

Lemma lang_chr_iff (c : ascii) (s : string) :
  Re.lang (Re.Chr c) s <-> s = String c EmptyString.
Proof.
  unfold Re.Chr. split.
  - intros H. apply lang_class_inv in H as [c' [-> Hc]].
    apply Ascii.eqb_eq in Hc. now subst.
  - intros ->. constructor. apply Ascii.eqb_refl.
Qed.

Lemma lang_lit_iff (t s : string) : Re.lang (Re.Lit t) s <-> s = t.
Proof.
  revert s. induction t as [|c t IH]; intros s; simpl.
  - split; [apply lang_eps_inv | intros ->; constructor].
  - rewrite lang_cat_iff. split.
    + intros [s1 [s2 [-> [H1 H2]]]]. apply lang_chr_iff in H1 as ->.
      apply IH in H2 as ->. reflexivity.
    + intros ->. exists (String c EmptyString), t. repeat split.
      * now apply lang_chr_iff.
      * now apply IH.
Qed.

Lemma isword_spec (c : ascii) : Text.isword c = true <-> ProxyLine.word_char c.
Proof. reflexivity. Qed.

Lemma isdigit_spec (c : ascii) : Text.isdigit c = true <-> ProxyLine.digit_char c.
Proof. reflexivity. Qed.

Lemma none_of_colon_at (c : ascii) :
  Re.none_of [ProxyPool.colon; ProxyPool.at_] c = true <-> ProxyLine.not_colon_at c.
Proof.
  unfold ProxyLine.not_colon_at, Re.none_of, ProxyPool.colon, ProxyPool.at_. simpl. rewrite negb_true_iff, !orb_false_iff.
  rewrite !Ascii.eqb_neq. tauto.
Qed.

Lemma none_of_at (c : ascii) :
  Re.none_of [ProxyPool.at_] c = true <-> ProxyLine.not_at c.
Proof.
  unfold ProxyLine.not_at, Re.none_of, ProxyPool.at_. simpl. rewrite negb_true_iff, orb_false_iff.
  rewrite Ascii.eqb_neq. tauto.
Qed.

Lemma lang_word_run (s : string) :
  Re.lang (Re.Plus (Re.Class Text.isword)) s <-> ProxyLine.run ProxyLine.word_char s.
Proof. exact (lang_plus_class _ _ isword_spec s). Qed.

Lemma lang_digit_run (s : string) :
  Re.lang (Re.Plus (Re.Class Text.isdigit)) s <-> ProxyLine.run ProxyLine.digit_char s.
Proof. exact (lang_plus_class _ _ isdigit_spec s). Qed.

Lemma lang_host_run (s : string) :
  Re.lang (Re.Plus (Re.NoneOf [ProxyPool.colon; ProxyPool.at_])) s
  <-> ProxyLine.run ProxyLine.not_colon_at s.
Proof. exact (lang_plus_class _ _ none_of_colon_at s). Qed.

Lemma lang_pass_run (s : string) :
  Re.lang (Re.Plus (Re.NoneOf [ProxyPool.at_])) s <-> ProxyLine.run ProxyLine.not_at s.
Proof. exact (lang_plus_class _ _ none_of_at s). Qed.

(** The compiled pattern denotes the shape. *)
Theorem body_lang_shape (line : string) :
  Re.lang ProxyPool.body line <-> ProxyLine.shape line.
Proof.
  unfold ProxyPool.body, ProxyLine.shape.
  rewrite lang_cat_iff. split.
  - intros [scheme [rest [-> [Hs Hrest]]]].
    apply lang_cat_iff in Hrest as [auth [rest' [-> [Ha Hrest']]]].
    apply lang_cat_iff in Hrest' as [host [rest'' [-> [Hh Hrest'']]]].
    apply lang_cat_iff in Hrest'' as [c0 [port [-> [Hc Hp]]]].
    apply lang_chr_iff in Hc as ->.
    exists scheme, auth, host, port. split; [reflexivity|].
    split; [|split; [|split]].
    + apply lang_opt_iff in Hs as [->|Hs]; [now left|]. right.
      apply lang_cat_iff in Hs as [w [l [-> [Hw Hl]]]].
      apply lang_lit_iff in Hl as ->. exists w. split; [reflexivity|].
      now apply lang_word_run.
    + apply lang_opt_iff in Ha as [->|Ha]; [now left|]. right.
      apply lang_cat_iff in Ha as [user [r1 [-> [Hu Hr1]]]].
      apply lang_cat_iff in Hr1 as [c1 [r2 [-> [Hc1 Hr2]]]].
      apply lang_cat_iff in Hr2 as [pass [c2 [-> [Hpw Hc2]]]].
      apply lang_chr_iff in Hc1 as ->. apply lang_chr_iff in Hc2 as ->.
      exists user, pass. split; [reflexivity|]. split.
      * now apply lang_host_run.
      * now apply lang_pass_run.
    + now apply lang_host_run.
    + now apply lang_digit_run.
  - intros [scheme [auth [host [port [-> [Hs [Ha [Hh Hp]]]]]]]].
    exists scheme. eexists. split; [reflexivity|]. split.
    + apply lang_opt_iff. destruct Hs as [->|[w [-> Hw]]]; [now left|]. right.
      apply lang_cat_iff. exists w, "://". split; [reflexivity|]. split.
      * now apply lang_word_run.
      * now apply lang_lit_iff.
    + apply lang_cat_iff. exists auth. eexists. split; [reflexivity|]. split.
      * apply lang_opt_iff. destruct Ha as [->|[user [pass [-> [Hu Hpw]]]]]; [now left|].
        right. apply lang_cat_iff. exists user. eexists. split; [reflexivity|]. split.
        -- now apply lang_host_run.
        -- apply lang_cat_iff. exists ":". eexists. split; [reflexivity|]. split.
           ++ now apply lang_chr_iff.
           ++ apply lang_cat_iff. exists pass, "@". split; [reflexivity|]. split.
              ** now apply lang_pass_run.
              ** now apply lang_chr_iff.
      * apply lang_cat_iff. exists host. eexists. split; [reflexivity|]. split.
        -- now apply lang_host_run.
        -- apply lang_cat_iff. exists ":", port. split; [reflexivity|]. split.
           ++ now apply lang_chr_iff.
           ++ now apply lang_digit_run.
Qed.

(* ================================================================== *)
(** ** Loading the pool ([ProxyPool._load], [ProxyPool.count]) *)

(** A stripped line does not end in a newline, so [$] can only hold at
    its very end. *)
Lemma rstrip_chomp (s : string) : Re.chomp (Text.rstrip s) = None.
Proof.
  induction s as [|c s IH]; simpl; [reflexivity|].
  destruct (Text.rstrip s) as [|d t] eqn:Hr.
  - destruct (Text.isspace c) eqn:Hc; simpl; [reflexivity|].
    destruct (Ascii.eqb c "010"%char) eqn:Hnl; [|reflexivity].
    apply Ascii.eqb_eq in Hnl. subst c. discriminate.
  - change (Re.chomp (String c (String d t)))
      with (option_map (String c) (Re.chomp (String d t))).
    now rewrite IH.
Qed.

Lemma regex_match_stripped (l : string) :
  ProxyPool._regex_match (Text.strip l) = true <-> ProxyLine.shape (Text.strip l).
Proof.
  unfold ProxyPool._regex_match, Re.match_anchored, Text.strip.
  rewrite rstrip_chomp, orb_false_r, fullmatch_lang. apply body_lang_shape.
Qed.

Lemma truthy_spec (s : string) : Text.truthy s = true <-> s <> EmptyString.
Proof. destruct s; simpl; split; congruence. Qed.

Lemma keep_iff_retained (l : string) :
  Text.truthy (Text.strip l) && negb (Text.startswith "#" (Text.strip l))
  && ProxyPool._regex_match (Text.strip l) = true
  <-> ProxyLine.retained (Text.strip l).
Proof.
  unfold ProxyLine.retained.
  rewrite !andb_true_iff, negb_true_iff, truthy_spec, regex_match_stripped. tauto.
Qed.

Lemma load_lines_acc (ls acc : list string) :
  ProxyPool._load_lines ls acc = acc ++ ProxyPool._load_lines ls [].
Proof.
  revert acc. induction ls as [|l ls IH]; intros acc; simpl.
  - now rewrite app_nil_r.
  - destruct (Text.truthy (Text.strip l) && negb (Text.startswith "#" (Text.strip l))
              && ProxyPool._regex_match (Text.strip l)).
    + rewrite (IH (acc ++ [Text.strip l])), (IH [Text.strip l]).
      now rewrite <- app_assoc.
    + apply IH.
Qed.

Lemma load_lines_selects (ls : list string) :
  ProxyLine.selects ProxyLine.retained (map Text.strip ls) (ProxyPool._load_lines ls []).
Proof.
  induction ls as [|l ls IH]; simpl.
  - constructor.
  - destruct (Text.truthy (Text.strip l) && negb (Text.startswith "#" (Text.strip l))
              && ProxyPool._regex_match (Text.strip l)) eqn:Hk.
    + rewrite load_lines_acc. simpl. apply ProxyLine.selects_keep; [|exact IH].
      now apply keep_iff_retained.
    + apply ProxyLine.selects_drop; [|exact IH].
      intros Hr. apply keep_iff_retained in Hr. congruence.
Qed.

(** C9.  A pool built from a source that exists holds exactly the
    stripped lines that are not blank, do not start with [#] and have
    the shape [[scheme://][user:pass@]host:port], in file order; every
    other line is dropped, [count()] is the number of lines held, and a
    source that does not exist gives the empty pool.  Construction
    returns a pool in every case. *)
Theorem load_retains_proxy_lines (f : opened) :
  let pool := ProxyPool.__init__ f in
  match f with
  | Lines ls =>
      ProxyLine.selects ProxyLine.retained (map Text.strip ls) (ProxyPool.raw pool)
  | FileNotFoundError =>
      ProxyPool.raw pool = [] /\ ProxyPool.count pool = 0
  end
  /\ ProxyPool.count pool = List.length (ProxyPool.raw pool)
  /\ ProxyPool.idx pool = 0.
Proof.
  destruct f as [|ls]; simpl.
  - repeat split; reflexivity.
  - split; [apply load_lines_selects|]. split; reflexivity.
Qed.

Example load_sample :
  ProxyPool.raw (ProxyPool.__init__ (Lines sample_lines))
  = ["1.2.3.4:8080"; "http://user:pw@host.example:3128"; "socks5://9.9.9.9:1080"]
  /\ ProxyPool.count (ProxyPool.__init__ (Lines sample_lines)) = 3
  /\ ProxyPool.count (ProxyPool.__init__ FileNotFoundError) = 0.
Proof. repeat split; vm_compute; reflexivity. Qed.

(* ================================================================== *)
(** ** Rotation ([ProxyPool.next]) *)

Lemma next_empty (p : ProxyPool.t) :
  ProxyPool.raw p = [] -> ProxyPool.next p = (Ok None, p).
Proof. unfold ProxyPool.next. intros ->. reflexivity. Qed.

(** On a pool that is not empty, [next] moves the cursor first and
    returns the entry under the moved cursor. *)
Lemma next_advances (p : ProxyPool.t) :
  ProxyPool.raw p <> [] ->
  let i := (ProxyPool.idx p + 1) mod List.length (ProxyPool.raw p) in
  ProxyPool.next p
  = (Ok (Some (ProxyPool._fmt (nth i (ProxyPool.raw p) EmptyString))),
     ProxyPool.mk (ProxyPool.raw p) i).
Proof.
  intros Hne i. unfold ProxyPool.next.
  destruct (ProxyPool.raw p) as [|x xs] eqn:Hraw; [congruence|].
  cbn [ProxyPool.raw ProxyPool.idx]. fold i.
  assert (Hi : i < List.length (x :: xs))
    by (apply Nat.mod_upper_bound; simpl; lia).
  destruct (nth_error (x :: xs) i) as [e|] eqn:Hn.
  - now rewrite (nth_error_nth _ _ EmptyString Hn).
  - apply nth_error_None in Hn. lia.
Qed.

Lemma nexts_cycle (k : nat) (p : ProxyPool.t) :
  ProxyPool.idx p < List.length (ProxyPool.raw p) ->
  let n := List.length (ProxyPool.raw p) in
  ProxyPool.nexts k p
  = (map (fun j => Ok (Some (ProxyPool._fmt
                               (nth ((ProxyPool.idx p + j) mod n) (ProxyPool.raw p)
                                  EmptyString))))
       (seq 1 k),
     ProxyPool.mk (ProxyPool.raw p) ((ProxyPool.idx p + k) mod n)).
Proof.
  intros Hlt n. revert p Hlt n. induction k as [|k IH]; intros [raw idx] Hlt n.
  - simpl in *. rewrite Nat.add_0_r, Nat.mod_small by exact Hlt. reflexivity.
  - cbn [ProxyPool.nexts]. cbn [ProxyPool.raw ProxyPool.idx] in *.
    assert (Hne : raw <> []) by (intros ->; simpl in Hlt; lia).
    rewrite (next_advances (ProxyPool.mk raw idx) Hne).
    cbn [ProxyPool.raw ProxyPool.idx]. fold n.
    assert (Hn : n <> 0) by (unfold n; lia).
    rewrite IH by (cbn [ProxyPool.raw ProxyPool.idx]; now apply Nat.mod_upper_bound).
    cbn [ProxyPool.raw ProxyPool.idx]. fold n.
    cbn [seq map]. f_equal.
    + f_equal. rewrite <- (seq_shift k 1), map_map. apply map_ext. intros j.
      rewrite Nat.Div0.add_mod_idemp_l.
      replace (idx + 1 + j) with (idx + S j) by lia. reflexivity.
    + f_equal. rewrite Nat.Div0.add_mod_idemp_l. f_equal. lia.
Qed.

Lemma map_nth_seq (A : Type) (l : list A) (d : A) :
  map (fun j => nth j l d) (seq 0 (List.length l)) = l.
Proof.
  induction l as [|x l IH]; simpl; [reflexivity|].
  f_equal. rewrite <- seq_shift, map_map. exact IH.
Qed.

(** From the cursor at [0], one call per entry returns the entries
    from the second on, then the first, and restores the cursor. *)
Lemma nexts_full_turn (x : string) (xs : list string) :
  ProxyPool.nexts (S (List.length xs)) (ProxyPool.mk (x :: xs) 0)
  = (map (fun e => Ok (Some (ProxyPool._fmt e))) (xs ++ [x]),
     ProxyPool.mk (x :: xs) 0).
Proof.
  rewrite nexts_cycle by (simpl; lia).
  cbn [ProxyPool.raw ProxyPool.idx]. f_equal.
  - change (List.length (x :: xs)) with (S (List.length xs)).
    replace (S (List.length xs)) with (List.length xs + 1) at 1 by lia.
    rewrite seq_app, map_app, (map_app _ xs [x]). f_equal.
    + rewrite <- seq_shift, map_map.
      rewrite <- (map_nth_seq xs EmptyString) at 2. rewrite map_map.
      apply map_ext_in. intros j Hj. apply in_seq in Hj.
      cbn [Nat.add]. rewrite Nat.mod_small by lia. reflexivity.
    + cbn [seq map Nat.add]. rewrite Nat.Div0.mod_same. reflexivity.
  - f_equal. cbn [Nat.add]. apply Nat.Div0.mod_same.
Qed.

(** C8, as the code has it.  On an empty pool [next] returns [None].
    On a pool of [n > 0] entries it first advances the cursor by one
    modulo [n] and then returns the formatted entry under the new
    cursor; so the [j]-th of successive calls returns entry
    [(idx + j) mod n], every entry once in each [n] calls, in load
    order cyclically.  From a freshly loaded pool (cursor 0) the first
    call returns the second loaded entry, the [n]-th call the first
    one, and the cursor is then back at 0. *)
Theorem next_round_robin (p : ProxyPool.t) :
  ProxyPool.idx p < List.length (ProxyPool.raw p) ->
  let n := List.length (ProxyPool.raw p) in
  ProxyPool.next p
  = (Ok (Some (ProxyPool._fmt
                 (nth ((ProxyPool.idx p + 1) mod n) (ProxyPool.raw p) EmptyString))),
     ProxyPool.mk (ProxyPool.raw p) ((ProxyPool.idx p + 1) mod n))
  /\ (forall k,
        ProxyPool.nexts k p
        = (map (fun j => Ok (Some (ProxyPool._fmt
                                     (nth ((ProxyPool.idx p + j) mod n)
                                        (ProxyPool.raw p) EmptyString))))
             (seq 1 k),
           ProxyPool.mk (ProxyPool.raw p) ((ProxyPool.idx p + k) mod n)))
  /\ (ProxyPool.idx p = 0 ->
      ProxyPool.nexts n p
      = (map (fun e => Ok (Some (ProxyPool._fmt e)))
           (tl (ProxyPool.raw p) ++ firstn 1 (ProxyPool.raw p)),
         p))
  /\ (forall q, ProxyPool.raw q = [] -> ProxyPool.next q = (Ok None, q)).
Proof.
  intros Hlt n. split; [|split; [|split]].
  - apply next_advances. intros Hnil. rewrite Hnil in Hlt. simpl in Hlt. lia.
  - intros k. now apply nexts_cycle.
  - intros H0. destruct p as [raw idx]. cbn [ProxyPool.raw ProxyPool.idx] in *.
    subst idx. destruct raw as [|x xs]; [simpl in Hlt; lia|].
    subst n. apply nexts_full_turn.
  - apply next_empty.
Qed.

Lemma next_round_robin_witness :
  ProxyPool.nexts 3 three_proxies
  = (map (fun e => Ok (Some (ProxyPool._fmt e)))
       ["socks5://10.0.0.2:1080"; "10.0.0.3:81"; "10.0.0.1:80"],
     three_proxies).
Proof.
  exact (proj1 (proj2 (proj2 (next_round_robin three_proxies
                                 (Nat.lt_0_succ 2)))) eq_refl).
Defined.

(** The first call on a freshly loaded pool does not return the first
    loaded entry, the one under the cursor before the call. *)
Lemma next_first_call_skips_first_entry :
  ProxyPool.idx three_proxies = 0
  /\ nth_error (ProxyPool.raw three_proxies) (ProxyPool.idx three_proxies)
     = Some "10.0.0.1:80"
  /\ fst (ProxyPool.next three_proxies)
     = Ok (Some [("http", "socks5://10.0.0.2:1080"); ("https", "socks5://10.0.0.2:1080")])
  /\ fst (ProxyPool.next three_proxies)
     <> Ok (Some (ProxyPool._fmt "10.0.0.1:80")).
Proof.
  repeat split; try (vm_compute; reflexivity).
  vm_compute. discriminate.
Qed.

(* ================================================================== *)
(** ** Sorted lists *)

Section SortedLists.

Variable A : Type.
Variable R : A -> A -> Prop.

Lemma strongly_sorted_app (l1 l2 : list A) :
  StronglySorted R l1 -> StronglySorted R l2 ->
  (forall x y, In x l1 -> In y l2 -> R x y) ->
  StronglySorted R (l1 ++ l2).
Proof.
  intros H1 H2 Hx. induction H1 as [|a l1 Hs IH Ha]; simpl; [exact H2|].
  constructor.
  - apply IH. intros x y Hin. apply Hx. now right.
  - apply Forall_app. split; [exact Ha|].
    apply Forall_forall. intros y Hy. apply Hx; [now left | exact Hy].
Qed.

Lemma strongly_sorted_nodup (l : list A) :
  (forall x, ~ R x x) -> StronglySorted R l -> NoDup l.
Proof.
  intros Hirr H. induction H as [|a l Hs IH Ha]; constructor; [|exact IH].
  intros Hin. rewrite Forall_forall in Ha. exact (Hirr a (Ha a Hin)).
Qed.

End SortedLists.

Lemma strongly_sorted_map (A B : Type) (R : A -> A -> Prop) (R' : B -> B -> Prop)
  (f : A -> B) (l : list A) :
  (forall x y, R x y -> R' (f x) (f y)) ->
  StronglySorted R l -> StronglySorted R' (map f l).
Proof.
  intros Hf H. induction H as [|a l Hs IH Ha]; simpl; constructor; [exact IH|].
  apply Forall_map. revert Ha. apply Forall_impl. intros y. apply Hf.
Qed.

(* ================================================================== *)
(** ** Exhaustive enumeration ([Generator._all]) *)

Lemma words_succ (cs : list ascii) (n : nat) :
  words cs (S n) = flat_map (fun c => map (String c) (words cs n)) cs.
Proof.
  unfold words. cbn [product]. generalize (product cs n) as P. intros P.
  induction cs as [|c cs IH]; simpl; [reflexivity|].
  rewrite map_app, IH, !map_map. reflexivity.
Qed.

Lemma length_flat_map_sum (A B : Type) (f : A -> list B) (l : list A) :
  List.length (flat_map f l) = list_sum (map (fun x => List.length (f x)) l).
Proof.
  induction l as [|x l IH]; simpl; [reflexivity|].
  now rewrite length_app, IH.
Qed.

Lemma words_length (cs : list ascii) (n : nat) :
  List.length (words cs n) = List.length cs ^ n.
Proof.
  induction n as [|n IH]; [reflexivity|].
  rewrite words_succ, length_flat_map_sum.
  rewrite (map_ext _ (fun _ => List.length cs ^ n))
    by (intros c; now rewrite length_map).
  cbn [Nat.pow]. clear IH. generalize (List.length cs ^ n) as m. intros m.
  induction cs as [|c cs IHc]; simpl; [reflexivity | now rewrite IHc].
Qed.

Lemma words_member (cs : list ascii) (n : nat) (s : string) :
  In s (words cs n) -> String.length s = n /\ Generator.over cs s.
Proof.
  revert s. induction n as [|n IH]; intros s.
  - simpl. intros [<-|[]]. split; [reflexivity | constructor].
  - rewrite words_succ, in_flat_map. intros [c [Hc Hs]].
    apply in_map_iff in Hs as [t [<- Ht]]. apply IH in Ht as [Hl Ho].
    split; [simpl; now rewrite Hl|].
    unfold Generator.over. simpl. now constructor.
Qed.

Lemma index_of_app (x : ascii) (pre l : list ascii) :
  ~ In x pre ->
  Generator.index_of x (pre ++ l) = List.length pre + Generator.index_of x l.
Proof.
  induction pre as [|a pre IH]; simpl; intros Hn; [reflexivity|].
  destruct (Ascii.eqb a x) eqn:He.
  - apply Ascii.eqb_eq in He. tauto.
  - rewrite IH by tauto. reflexivity.
Qed.

(** In a character set without repetition, a character stands before
    the ones listed after it. *)
Lemma index_of_later (pre : list ascii) (c : ascii) (rest : list ascii) (d : ascii) :
  NoDup (pre ++ c :: rest) -> In d rest ->
  Generator.index_of c (pre ++ c :: rest) < Generator.index_of d (pre ++ c :: rest).
Proof.
  intros Hnd Hd.
  assert (Hc : ~ In c pre).
  { intros Hin. apply NoDup_remove_2 in Hnd. apply Hnd. apply in_or_app. now left. }
  assert (Hd' : ~ In d pre /\ d <> c).
  { split.
    - intros Hin. apply NoDup_app_remove_r in Hnd as Hpre.
      clear Hpre. induction pre as [|a pre IH]; [destruct Hin|].
      simpl in Hnd. inversion Hnd as [|? ? Ha Hrest]; subst.
      destruct Hin as [->|Hin].
      + apply Ha. apply in_or_app. right. now right.
      + apply IH; [exact Hrest | | exact Hin].
        intros Hcp. apply Hc. now right.
    - intros ->. apply NoDup_remove_2 in Hnd. apply Hnd. apply in_or_app. now right. }
  destruct Hd' as [Hdp Hdc].
  rewrite !index_of_app by assumption. simpl.
  rewrite Ascii.eqb_refl.
  destruct (Ascii.eqb c d) eqn:He; [apply Ascii.eqb_eq in He; congruence | lia].
Qed.

Lemma lex_lt_irrefl (cs : list ascii) (s : string) : ~ Generator.lex_lt cs s s.
Proof.
  induction s as [|c s IH]; simpl; [tauto|]. intros [H|[_ H]]; [lia | exact (IH H)].
Qed.

Lemma enum_lt_irrefl (cs : list ascii) (s : string) : ~ Generator.enum_lt cs s s.
Proof.
  unfold Generator.enum_lt. intros [H|[_ H]]; [lia | exact (lex_lt_irrefl _ _ H)].
Qed.

Lemma words_block_sorted (cs pre l : list ascii) (W : list string) :
  NoDup cs -> cs = pre ++ l ->
  StronglySorted (Generator.lex_lt cs) W ->
  StronglySorted (Generator.lex_lt cs) (flat_map (fun c => map (String c) W) l).
Proof.
  intros Hnd Hcs HW. revert pre Hcs. induction l as [|c l IH]; intros pre Hcs; simpl.
  - constructor.
  - apply strongly_sorted_app.
    + apply (strongly_sorted_map (R := Generator.lex_lt cs)); [|exact HW].
      intros x y Hxy. simpl. right. now split.
    + apply (IH (pre ++ [c])). now rewrite <- app_assoc.
    + intros x y Hx Hy. apply in_map_iff in Hx as [s [<- _]].
      apply in_flat_map in Hy as [d [Hd Hy]]. apply in_map_iff in Hy as [t [<- _]].
      simpl. left. rewrite Hcs. apply index_of_later; [now rewrite <- Hcs | exact Hd].
Qed.

Lemma words_sorted (cs : list ascii) (n : nat) :
  NoDup cs -> StronglySorted (Generator.lex_lt cs) (words cs n).
Proof.
  intros Hnd. induction n as [|n IH].
  - simpl. repeat constructor.
  - rewrite words_succ. now apply (words_block_sorted [] cs).
Qed.

(** Blocks of increasing length, each in lexicographic order. *)
Lemma blocks_sorted (cs : list ascii) (a k : nat) :
  NoDup cs ->
  StronglySorted (Generator.enum_lt cs) (flat_map (words cs) (seq a k)).
Proof.
  intros Hnd. revert a. induction k as [|k IH]; intros a; simpl.
  - constructor.
  - apply strongly_sorted_app.
    + assert (Hlen : Forall (fun s => String.length s = a) (words cs a)).
      { apply Forall_forall. intros s Hs. now apply words_member in Hs. }
      pose proof (words_sorted a Hnd) as Hs.
      induction Hs as [|x l Hs IHs Hx]; constructor.
      * apply IHs. now inversion Hlen.
      * inversion Hlen as [|? ? Hxa Hla]; subst.
        rewrite Forall_forall in *. intros y Hy. right. split.
        -- now rewrite (Hla y Hy).
        -- now apply Hx.
    + apply IH.
    + intros x y Hx Hy. left. apply words_member in Hx as [-> _].
      apply in_flat_map in Hy as [L [HL Hy]]. apply in_seq in HL.
      apply words_member in Hy as [-> _]. lia.
Qed.

Lemma nodupb_sound (l : list ascii) : nodupb l = true -> NoDup l.
Proof.
  induction l as [|x l IH]; simpl; intros H; constructor;
    apply andb_true_iff in H as [Hx Hl].
  - intros Hin. apply negb_true_iff in Hx.
    assert (existsb (Ascii.eqb x) l = true); [|congruence].
    apply existsb_exists. exists x. split; [exact Hin | apply Ascii.eqb_refl].
  - now apply IH.
Qed.

(** The character set of a constructed generator: the lowercase
    letters, then the digits if asked for; no character twice. *)
Lemma init_charset (cfg : option Generator.config) (g : Generator.t) :
  Generator.__init__ cfg = Ok g ->
  NoDup (Generator.charset g) /\ Generator.charset g <> [].
Proof.
  unfold Generator.__init__. intros H.
  assert (Hcs : Generator.charset g
                = Generator.ascii_lowercase
                  ++ (if Generator.get
                           (Generator.cfg_digits (Generator.get cfg Generator.empty_config))
                           true
                      then Generator.digits else [])).
  { destruct (_ && _); [now inversion H|].
    destruct (Generator.int _); now inversion H. }
  rewrite Hcs. destruct (Generator.get _ true).
  - split; [apply nodupb_sound; vm_compute; reflexivity | discriminate].
  - split; [apply nodupb_sound; vm_compute; reflexivity | discriminate].
Qed.

Lemma all_blocks (g : Generator.t) :
  Generator._all g
  = flat_map (words (Generator.charset g))
      (range (Generator.min_len g) (Generator.max_len g + 1)).
Proof. reflexivity. Qed.

(** C5.  In exhaustive mode (the count resolved to 0) with
    [min_len <= max_len], [generate()] returns, without touching the
    random source, the sum over [L] from [min_len] to [max_len] of
    [|charset|^L] strings, each of a length in [[min_len, max_len]] and
    over the character set, no string twice, shorter strings first and
    strings of one length in the lexicographic order of the character
    set. *)
Theorem exhaustive_enumeration
  (cfg : option Generator.config) (g : Generator.t) (r : Random) :
  Generator.__init__ cfg = Ok g ->
  Generator.count g = 0%Z ->
  Generator.min_len g <= Generator.max_len g ->
  exists l,
    Generator.generate g r = (Ok l, r)
    /\ List.length l
       = Generator.sum_pow (List.length (Generator.charset g))
           (Generator.min_len g) (Generator.max_len g)
    /\ Forall (fun s => Generator.min_len g <= String.length s <= Generator.max_len g
                        /\ Generator.over (Generator.charset g) s) l
    /\ NoDup l
    /\ StronglySorted (Generator.enum_lt (Generator.charset g)) l.
Proof.
  intros Hinit Hcount Hle. exists (Generator._all g).
  apply init_charset in Hinit as [Hnd _].
  assert (Hsorted : StronglySorted (Generator.enum_lt (Generator.charset g))
                      (Generator._all g)).
  { rewrite all_blocks. unfold range. now apply blocks_sorted. }
  split; [|split; [|split; [|split]]].
  - unfold Generator.generate. now rewrite Hcount.
  - rewrite all_blocks, length_flat_map_sum. unfold Generator.sum_pow.
    f_equal. apply map_ext. intros L. apply words_length.
  - apply Forall_forall. intros s Hs. rewrite all_blocks in Hs.
    apply in_flat_map in Hs as [L [HL Hs]]. unfold range in HL. apply in_seq in HL.
    apply words_member in Hs as [-> Ho]. split; [lia | exact Ho].
  - apply (strongly_sorted_nodup (R := Generator.enum_lt (Generator.charset g)));
      [apply enum_lt_irrefl | exact Hsorted].
  - exact Hsorted.
Qed.

Lemma exhaustive_enumeration_witness :
  exists l,
    Generator.generate (Generator.mk 1 2 Generator.ascii_lowercase 0) counting
    = (Ok l, counting)
    /\ List.length l = Generator.sum_pow 26 1 2
    /\ Forall (fun s => 1 <= String.length s <= 2
                        /\ Generator.over Generator.ascii_lowercase s) l
    /\ NoDup l
    /\ StronglySorted (Generator.enum_lt Generator.ascii_lowercase) l.
Proof.
  apply (exhaustive_enumeration letters_1_2
           (g := Generator.mk 1 2 Generator.ascii_lowercase 0) counting).
  - reflexivity.
  - reflexivity.
  - simpl. lia.
Defined.

Example all_two_letters :
  Generator._all (Generator.mk 0 2 (list_ascii_of_string "ab") 0)
  = [""; "a"; "b"; "aa"; "ab"; "ba"; "bb"].
Proof. reflexivity. Qed.

(* ================================================================== *)
(** ** Sampling ([Generator._random]) *)

Lemma randint_in_range (a b : nat) (r : Random) :
  a <= b ->
  exists k r', random.randint a b r = (Ok k, r') /\ a <= k <= b.
Proof.
  intros Hab. unfold random.randint, random.randbelow.
  destruct (b <? a) eqn:Hlt; [apply Nat.ltb_lt in Hlt; lia|].
  eexists. eexists. split; [reflexivity|].
  pose proof (Nat.mod_upper_bound (draws r (cursor r)) (b + 1 - a)). lia.
Qed.

Lemma choices_ok (cs : list ascii) (k : nat) (r : Random) :
  cs <> [] ->
  exists l r', random.choices cs k r = (Ok l, r')
               /\ List.length l = k /\ Forall (fun c => In c cs) l.
Proof.
  intros Hne. revert r. induction k as [|k IH]; intros r; simpl.
  - exists [], r. repeat split. constructor.
  - assert (Hi : draws r (cursor r) mod List.length cs < List.length cs).
    { apply Nat.mod_upper_bound. destruct cs; [congruence | simpl; lia]. }
    destruct (nth_error cs (draws r (cursor r) mod List.length cs)) as [c|] eqn:Hn.
    + destruct (IH (mkRandom (draws r) (S (cursor r)))) as [l [r' [Hl [Hlen Hall]]]].
      rewrite Hl. exists (c :: l), r'. split; [reflexivity|]. split.
      * simpl. now rewrite Hlen.
      * constructor; [|exact Hall]. now apply nth_error_In in Hn.
    + apply nth_error_None in Hn. lia.
Qed.

Lemma join_length (l : list ascii) : String.length (Text.join l) = List.length l.
Proof. induction l as [|c l IH]; simpl; [reflexivity | now rewrite IH]. Qed.

Lemma random_one_ok (g : Generator.t) (r : Random) :
  Generator.min_len g <= Generator.max_len g ->
  Generator.charset g <> [] ->
  exists s r', Generator._random_one g r = (Ok s, r') /\ sample_ok g s.
Proof.
  intros Hle Hne. unfold Generator._random_one.
  destruct (randint_in_range r Hle) as [k [r1 [-> Hk]]].
  destruct (choices_ok k r1 Hne) as [l [r2 [-> [Hlen Hall]]]].
  exists (Text.join l), r2. split; [reflexivity|]. split.
  - rewrite join_length. lia.
  - unfold Generator.over, Text.join.
    now rewrite list_ascii_of_string_of_list_ascii.
Qed.

Lemma random_n_ok (g : Generator.t) (n : nat) (r : Random) :
  Generator.min_len g <= Generator.max_len g ->
  Generator.charset g <> [] ->
  exists l r', Generator._random_n g n r = (Ok l, r')
               /\ List.length l = n /\ Forall (sample_ok g) l.
Proof.
  intros Hle Hne. revert r. induction n as [|n IH]; intros r; simpl.
  - exists [], r. repeat split. constructor.
  - destruct (random_one_ok g r Hle Hne) as [s [r1 [-> Hs]]].
    destruct (IH r1) as [l [r2 [-> [Hlen Hall]]]].
    exists (s :: l), r2. split; [reflexivity|]. split.
    + simpl. now rewrite Hlen.
    + now constructor.
Qed.

(** C6, as the code has it.  With [min_len <= max_len] and a requested
    count [n >= 1], [generate()] returns exactly [n] strings, each of a
    length in [[min_len, max_len]] and over the character set.  (A
    requested count of 0 is the value that selects exhaustive mode.) *)
Theorem sampling_count
  (cfg : option Generator.config) (g : Generator.t) (n : Z) (r : Random) :
  Generator.__init__ cfg = Ok g ->
  Generator.count g = n ->
  (1 <= n)%Z ->
  Generator.min_len g <= Generator.max_len g ->
  exists l r',
    Generator.generate g r = (Ok l, r')
    /\ Z.of_nat (List.length l) = n
    /\ Forall (fun s => Generator.min_len g <= String.length s <= Generator.max_len g
                        /\ Generator.over (Generator.charset g) s) l.
Proof.
  intros Hinit Hcount Hn Hle. apply init_charset in Hinit as [_ Hne].
  unfold Generator.generate, Generator._random. rewrite Hcount.
  destruct (Z.eqb_spec n 0) as [->|_]; [lia|].
  destruct (random_n_ok g (Z.to_nat n) r Hle Hne) as [l [r' [Hl [Hlen Hall]]]].
  exists l, r'. split; [exact Hl|]. split; [lia | exact Hall].
Qed.

Lemma sampling_count_witness :
  exists l r',
    Generator.generate
      (Generator.mk 2 3 (Generator.ascii_lowercase ++ Generator.digits) 3) counting
    = (Ok l, r')
    /\ Z.of_nat (List.length l) = 3%Z
    /\ Forall (fun s => 2 <= String.length s <= 3
                        /\ Generator.over
                             (Generator.ascii_lowercase ++ Generator.digits) s) l.
Proof.
  apply (sampling_count sample_3
           (g := Generator.mk 2 3 (Generator.ascii_lowercase ++ Generator.digits) 3)
           (n := 3%Z) counting).
  - reflexivity.
  - reflexivity.
  - lia.
  - simpl. lia.
Defined.

Example sample_3_run :
  fst (Generator.generate
         (Generator.mk 2 3 (Generator.ascii_lowercase ++ Generator.digits) 3) counting)
  = Ok ["bc"; "efg"; "ijk"].
Proof. vm_compute. reflexivity. Qed.

(** A requested count of 0 does not give the empty list: the generator
    built from it enumerates, here the 26 one-letter names.  (And with
    [min_len > max_len] a requested count of 1 raises.) *)
Lemma sampling_zero_count_enumerates :
  Generator.__init__ zero_count = Ok (Generator.mk 1 1 Generator.ascii_lowercase 0)
  /\ fst (Generator.generate (Generator.mk 1 1 Generator.ascii_lowercase 0) counting)
     = Ok (map (fun c => String c EmptyString) Generator.ascii_lowercase)
  /\ fst (Generator.generate (Generator.mk 1 1 Generator.ascii_lowercase 0) counting)
     <> Ok []
  /\ Generator.__init__ inverted_range = Ok (Generator.mk 3 2 Generator.ascii_lowercase 1)
  /\ fst (Generator.generate (Generator.mk 3 2 Generator.ascii_lowercase 1) counting)
     = Raise (Exception "ValueError" "empty range for randrange()").
Proof.
  repeat split; try reflexivity. vm_compute. discriminate.
Qed.

(* ================================================================== *)
(** ** The ["max"] count ([Generator.__init__]) *)

(** C7, as the code has it.  When the count is ["max"] and [max_len]
    exceeds 4, the exhaustive branch is not taken and [int("max")]
    raises [ValueError] in the constructor: no generator is built, so
    there is no [generate()] that could return an empty list. *)
Theorem max_count_long_range_raises (c : Generator.config) :
  Generator.cfg_count c = Some Generator.CntMax ->
  4 < Generator.get (Generator.cfg_max c) 12 ->
  Generator.__init__ (Some c)
  = Raise (Exception "ValueError" "invalid literal for int() with base 10: 'max'").
Proof.
  intros Hc Hmax. unfold Generator.__init__. cbn [Generator.get]. rewrite Hc.
  cbn [Generator.get andb].
  destruct (Nat.leb_spec (Generator.get (Generator.cfg_max c) 12) 4) as [H|_];
    [lia | reflexivity].
Qed.

Lemma max_count_long_range_raises_witness :
  Generator.__init__ (Some max_default_range)
  = Raise (Exception "ValueError" "invalid literal for int() with base 10: 'max'").
Proof.
  apply max_count_long_range_raises; [reflexivity | simpl; lia].
Defined.

(** No generator comes out of ["max"] with [max_len = 5]: the
    constructor raises, it does not fall back to an empty generation. *)
Lemma max_count_no_silent_fallback :
  Generator.__init__ (Some max_5)
  = Raise (Exception "ValueError" "invalid literal for int() with base 10: 'max'")
  /\ ~ (exists g, Generator.__init__ (Some max_5) = Ok g
                  /\ Generator.generate g counting = (Ok [], counting)).
Proof.
  split; [reflexivity|]. intros [g [H _]]. discriminate H.
Qed.

(** Up to [max_len = 4] the same count selects exhaustive mode. *)
Lemma max_count_short_range (c : Generator.config) :
  Generator.cfg_count c = Some Generator.CntMax ->
  Generator.get (Generator.cfg_max c) 12 <= 4 ->
  exists g, Generator.__init__ (Some c) = Ok g /\ Generator.count g = 0%Z.
Proof.
  intros Hc Hmax. unfold Generator.__init__. cbn [Generator.get]. rewrite Hc.
  cbn [Generator.get andb].
  destruct (Nat.leb_spec (Generator.get (Generator.cfg_max c) 12) 4) as [_|H];
    [|lia].
  eexists. split; reflexivity.
Qed.

(* ================================================================== *)
(** ** Effects: what each operation leaves unchanged *)

Lemma filter_snoc (A : Type) (f : A -> bool) (l : list A) (x : A) :
  filter f (l ++ [x]) = filter f l ++ (if f x then [x] else []).
Proof. now rewrite filter_app. Qed.

Section Frames.

Variable E : Env.
Variable self : Checker.t.

Lemma print_frame (lg : Logger.t) (level : nat) (name msg : string) (w : World) :
  let w' := Logger._print lg level name msg w in
  shutdown w' = shutdown w /\ now w' = now w /\ proxies w' = proxies w
  /\ gets w' = gets w /\ net w' = net w /\ advanced w' = advanced w.
Proof.
  unfold Logger._print. destruct (_ <=? _); cbn; [|repeat split; reflexivity].
  unfold gets, net, advanced, emit; cbn [trace shutdown now proxies].
  rewrite !filter_snoc; cbn. rewrite !app_nil_r. repeat split; reflexivity.
Qed.

(** [_proxy] returns a value and touches only the pool. *)
Lemma proxy_returns (w : World) :
  exists p pool,
    Checker._proxy self w = (Ok p, mkWorld (shutdown w) (now w) pool (trace w)).
Proof.
  unfold Checker._proxy. destruct w as [sd nw [pool|] tr]; cbn [proxies shutdown now trace].
  - destruct (use_proxy (Checker.cfg self)); [|eauto].
    destruct (ProxyPool.raw pool) as [|x xs] eqn:Hraw.
    + rewrite next_empty by exact Hraw. eauto.
    + rewrite next_advances by congruence. eauto.
  - eauto.
Qed.

End Frames.

Section Runs.

Variable E : Env.
Variable self : Checker.t.

Lemma runs_trans (w1 w2 w3 : World) : runs E w1 w2 -> runs E w2 w3 -> runs E w1 w3.
Proof.
  intros H12 H23. induction H12 as [w|w w' _ IH|e w w' He _ IH|pool w w' _ IH].
  - exact H23.
  - apply runs_tick. now apply IH.
  - apply (runs_emit He). now apply IH.
  - apply (runs_pool (pool := pool)). now apply IH.
Qed.

Lemma runs_advanced (w w' : World) : runs E w w' -> advanced w' = advanced w.
Proof.
  intros H. induction H as [w|w w' _ IH|e w w' He _ IH|pool w w' _ IH];
    [reflexivity | exact IH | | exact IH].
  rewrite IH. unfold advanced, emit. cbn [trace].
  rewrite filter_snoc, He, app_nil_r. reflexivity.
Qed.

(** The event, once set, stays set. *)
Lemma runs_shutdown_mono (w w' : World) :
  runs E w w' -> shutdown w = true -> shutdown w' = true.
Proof.
  intros H. induction H as [w|w w' _ IH|e w w' He _ IH|pool w w' _ IH]; intros Hs.
  - exact Hs.
  - apply IH. unfold tick. cbn. now rewrite Hs.
  - apply IH. exact Hs.
  - apply IH. exact Hs.
Qed.

(** Without SIGINT the event does not change. *)
Lemma runs_shutdown_quiet (w w' : World) :
  (forall t, sigint E t = false) -> runs E w w' -> shutdown w' = shutdown w.
Proof.
  intros Hq H. induction H as [w|w w' _ IH|e w w' He _ IH|pool w w' _ IH].
  - reflexivity.
  - rewrite IH. unfold tick. cbn. rewrite Hq. apply orb_false_r.
  - exact IH.
  - exact IH.
Qed.

Lemma runs_print (lg : Logger.t) (level : nat) (name msg : string) (w : World) :
  runs E w (Logger._print lg level name msg w).
Proof.
  unfold Logger._print. destruct (_ <=? _); [|apply runs_refl].
  apply (runs_emit (e := EPrint name msg)); [reflexivity | apply runs_refl].
Qed.

Lemma runs_sleep (q : Q) (w : World) : runs E w (sleep E q w).
Proof.
  unfold sleep. apply (runs_emit (e := ESleep q)); [reflexivity|].
  apply runs_tick, runs_refl.
Qed.

Lemma runs_fetch_failed (u : string) (a : Z) (e : exn) (w : World) :
  runs E w (snd (Checker.fetch_failed E self u a e w)).
Proof.
  unfold Checker.fetch_failed, Logger.error.
  destruct (_ <=? _)%Z; cbn [snd]; [apply runs_print|].
  eapply runs_trans; [apply runs_print | apply runs_sleep].
Qed.

Lemma runs_fetch_body (u : string) (a : Z) (w : World) :
  runs E w (snd (Checker.fetch_body E self u a w)).
Proof.
  unfold Checker.fetch_body.
  destruct (proxy_returns self w) as [p [pool ->]].
  apply (runs_pool (pool := pool)). unfold sess_get.
  apply (runs_emit (e := EGet (Checker.URL u) p)); [reflexivity|].
  apply runs_tick.
  set (w2 := tick E _).
  destruct (http_get E _ _ _) as [r|[|k m]].
  - destruct (ok r); [apply runs_refl | apply runs_fetch_failed].
  - apply runs_refl.
  - apply runs_fetch_failed.
Qed.

Lemma runs_fetch_loop (fuel : nat) (u : string) (a : Z) (w : World) :
  runs E w (snd (Checker.fetch_loop E self fuel u a w)).
Proof.
  revert a w. induction fuel as [|fuel IH]; intros a w; cbn [Checker.fetch_loop].
  - apply runs_refl.
  - destruct (a <? _)%Z; [|apply runs_refl].
    unfold is_set. cbv zeta.
    destruct (shutdown (tick E w)); [apply runs_tick, runs_refl|].
    pose proof (runs_fetch_body u (a + 1) (tick E w)) as Hb.
    destruct (Checker.fetch_body E self u (a + 1) (tick E w)) as [[r|] w2];
      cbn [snd] in *.
    + now apply runs_tick.
    + apply runs_tick. eapply runs_trans; [exact Hb | apply IH].
Qed.

Lemma runs_check (u : string) (w : World) :
  runs E w (snd (Checker.check E self u w)).
Proof.
  unfold Checker.check, Checker.fetch.
  pose proof (runs_fetch_loop (Z.to_nat (retries (Checker.cfg self))) u 0 w) as Hf.
  destruct (Checker.fetch_loop E self _ u 0 w) as [[html|e] w1]; cbn [snd] in *.
  - eapply runs_trans; [exact Hf|].
    destruct (Checker.parse E html); apply runs_print.
  - exact Hf.
Qed.

End Runs.

(* ================================================================== *)
(** ** Retry and backoff ([Checker.fetch]) *)

Section Retry.

Variable E : Env.
Variable self : Checker.t.

Hypothesis no_sigint : forall t, sigint E t = false.
Hypothesis all_fail : forall t url p, failing (http_get E t url p).

Lemma is_set_quiet (w : World) :
  shutdown w = false -> is_set E w = (false, tick E w) /\ shutdown (tick E w) = false.
Proof.
  intros Hs. unfold is_set, tick. cbn. rewrite Hs, no_sigint. split; reflexivity.
Qed.

Lemma net_emit (e : event) (w : World) :
  net (emit e w) = net w ++ (if is_net e then [e] else []).
Proof. unfold net, emit. cbn [trace]. apply filter_snoc. Qed.

Lemma fetch_failed_net (u : string) (a : Z) (e : exn) (w : World) :
  let last := (retries (Checker.cfg self) <=? a)%Z in
  let w' := snd (Checker.fetch_failed E self u a e w) in
  fst (Checker.fetch_failed E self u a e w) = (if last then Done (Raise e) else Again)
  /\ net w'
     = net w ++ (if last then []
                 else [ESleep (Qmult (delay (Checker.cfg self)) (inject_Z a))]).
Proof.
  unfold Checker.fetch_failed, Logger.error. cbv zeta.
  set (w1 := Logger._print _ _ _ _ w).
  assert (Hn : net w1 = net w) by apply (print_frame (Checker.log self)).
  destruct (_ <=? _)%Z; cbn [fst snd].
  - split; [reflexivity|]. now rewrite app_nil_r.
  - split; [reflexivity|]. unfold sleep.
    change (net (tick E ?x)) with (net x). now rewrite net_emit, Hn.
Qed.

(** One attempt against a failing network: a request, then the
    handler. *)
Lemma fetch_body_failing (u : string) (a : Z) (w : World) :
  exists p k m w2,
    Checker.fetch_body E self u a w
    = Checker.fetch_failed E self u a (Exception k m) w2
    /\ net w2 = net w ++ [EGet (Checker.URL u) p].
Proof.
  unfold Checker.fetch_body.
  destruct (proxy_returns self w) as [p [pool ->]].
  unfold sess_get. cbn [now].
  pose proof (all_fail (now w) (Checker.URL u) p) as Hf.
  set (w2 := tick E _).
  assert (Hn : net w2 = net w ++ [EGet (Checker.URL u) p]).
  { unfold w2. change (net (tick E ?x)) with (net x). now rewrite net_emit. }
  destruct (http_get E (now w) (Checker.URL u) p) as [r|[|k m]]; simpl in Hf.
  - rewrite Hf. exists p, "HTTPError", "HTTP Error", w2. now split.
  - destruct Hf.
  - exists p, k, m, w2. now split.
Qed.

(** One pass through the loop against a failing network, the event
    unset: either the last attempt, which raises, or a sleep of
    [delay * attempt] and the next pass. *)
Lemma fetch_loop_pass (fuel : nat) (u : string) (a : Z) (w : World) :
  (a < retries (Checker.cfg self))%Z ->
  shutdown w = false ->
  exists p k m w',
    shutdown w' = false
    /\ net w'
       = net w
         ++ EGet (Checker.URL u) p
            :: (if (retries (Checker.cfg self) <=? a + 1)%Z then []
                else [ESleep (Qmult (delay (Checker.cfg self)) (inject_Z (a + 1)))])
    /\ Checker.fetch_loop E self (S fuel) u a w
       = if (retries (Checker.cfg self) <=? a + 1)%Z
         then (Raise (Exception k m), w')
         else Checker.fetch_loop E self fuel u (a + 1) w'.
Proof.
  intros Ha Hs. cbn [Checker.fetch_loop].
  apply Z.ltb_lt in Ha. rewrite Ha.
  destruct (is_set_quiet w Hs) as [-> Hs1].
  destruct (fetch_body_failing u (a + 1) (tick E w)) as [p [k [m [w2 [Hb Hn]]]]].
  change (net (tick E w)) with (net w) in Hn.
  pose proof (fetch_failed_net u (a + 1) (Exception k m) w2) as [Hfst Hnet].
  pose proof (runs_fetch_body E self u (a + 1) (tick E w)) as Hruns.
  apply (runs_shutdown_quiet no_sigint) in Hruns. rewrite Hs1 in Hruns.
  rewrite Hb in *.
  destruct (Checker.fetch_failed E self u (a + 1) (Exception k m) w2) as [st w'].
  cbn [fst snd] in *. subst st.
  exists p, k, m, w'. split; [exact Hruns|]. split.
  - rewrite Hnet, Hn, <- app_assoc. reflexivity.
  - destruct (_ <=? _)%Z; reflexivity.
Qed.

End Retry.



Example fetch_down_trace :
  fst (Checker.fetch down_env default_checker "ab" fresh)
  = Raise (Exception "ConnectionError" "Connection refused")
  /\ net (snd (Checker.fetch down_env default_checker "ab" fresh))
     = [EGet "https://guns.lol/ab" None; ESleep (1 # 1);
        EGet "https://guns.lol/ab" None; ESleep (2 # 1);
        EGet "https://guns.lol/ab" None].
Proof. split; vm_compute; reflexivity. Qed.

(* ================================================================== *)
(** ** One check ([Checker.check]) *)

Section CheckFacts.

Variable E : Env.
Variable self : Checker.t.

Lemma check_username (u : string) (w w' : World) (r : Result) :
  Checker.check E self u w = (Ok r, w') -> username r = u.
Proof.
  unfold Checker.check. destruct (Checker.fetch E self u w) as [[html|e] w1].
  - intros H. injection H as <- _. reflexivity.
  - discriminate.
Qed.

Lemma fetch_failed_not_interrupt (u : string) (a : Z) (k m : string) (w : World) :
  fst (Checker.fetch_failed E self u a (Exception k m) w) <> Done (Raise KeyboardInterrupt).
Proof.
  unfold Checker.fetch_failed. destruct (_ <=? _)%Z; cbn [fst]; discriminate.
Qed.

Lemma fetch_body_not_interrupt (u : string) (a : Z) (w : World) :
  no_interrupt E ->
  fst (Checker.fetch_body E self u a w) <> Done (Raise KeyboardInterrupt).
Proof.
  intros Hni. unfold Checker.fetch_body.
  destruct (proxy_returns self w) as [p [pool ->]]. unfold sess_get.
  pose proof (Hni (now (mkWorld (shutdown w) (now w) pool (trace w)))
                (Checker.URL u) p) as Hn.
  destruct (http_get E _ _ _) as [r|[|k m]].
  - destruct (ok r); [cbn [fst]; discriminate | apply fetch_failed_not_interrupt].
  - congruence.
  - apply fetch_failed_not_interrupt.
Qed.

Lemma fetch_loop_not_interrupt (fuel : nat) (u : string) (a : Z) (w : World) :
  no_interrupt E ->
  fst (Checker.fetch_loop E self fuel u a w) <> Raise KeyboardInterrupt.
Proof.
  intros Hni. revert a w. induction fuel as [|fuel IH]; intros a w;
    cbn [Checker.fetch_loop]; [cbn [fst]; discriminate|].
  destruct (a <? _)%Z; [|cbn [fst]; discriminate].
  unfold is_set. cbv zeta. destruct (shutdown (tick E w)); [cbn [fst]; discriminate|].
  pose proof (fetch_body_not_interrupt u (a + 1) (tick E w) Hni) as Hb.
  destruct (Checker.fetch_body E self u (a + 1) (tick E w)) as [[r|] w2];
    cbn [fst] in *; [congruence | apply IH].
Qed.

Lemma check_not_interrupt (u : string) (w : World) :
  no_interrupt E -> fst (Checker.check E self u w) <> Raise KeyboardInterrupt.
Proof.
  intros Hni. unfold Checker.check, Checker.fetch.
  pose proof (fetch_loop_not_interrupt (Z.to_nat (retries (Checker.cfg self))) u 0 w Hni)
    as Hf.
  destruct (Checker.fetch_loop E self _ u 0 w) as [[html|e] w1]; cbn [fst] in *;
    [discriminate | congruence].
Qed.

End CheckFacts.

(* ================================================================== *)
(** ** The batch loop ([Checker.batch]) *)

Section BatchFacts.

Variable E : Env.
Variable self : Checker.t.

(** The loop only ever appends to the results. *)
Lemma batch_loop_extends (us : list string) (acc : list Result) (w : World) :
  exists more,
    fst (Checker.batch_loop E self us acc w) = acc ++ more
    /\ List.length more <= List.length us.
Proof.
  revert acc w. induction us as [|u us IH]; intros acc w; cbn [Checker.batch_loop].
  - exists []. split; [now rewrite app_nil_r | simpl; lia].
  - destruct (is_set E w) as [[|] w1].
    + exists []. split; [now rewrite app_nil_r | simpl; lia].
    + destruct (Checker.check E self u w1) as [[r|[|k m]] w2].
      * destruct (IH (acc ++ [r]) (emit EAdvance w2)) as [more [-> Hl]].
        exists (r :: more). split; [now rewrite <- app_assoc | simpl; lia].
      * exists []. split; [now rewrite app_nil_r | simpl; lia].
      * match goal with |- context [Checker.batch_loop E self us ?a ?x] =>
          destruct (IH a x) as [more [-> Hl]] end.
        eexists (_ :: more). split; [now rewrite <- app_assoc | simpl; lia].
Qed.

(** If the loop over [us1] produced one result per username, the loop
    over [us1 ++ us2] reaches [us2] in the state the first loop ended
    in. *)
Lemma batch_loop_app (us1 us2 : list string) (acc rs : list Result) (w w1 : World) :
  Checker.batch_loop E self us1 acc w = (rs, w1) ->
  List.length rs = List.length acc + List.length us1 ->
  Checker.batch_loop E self (us1 ++ us2) acc w = Checker.batch_loop E self us2 rs w1.
Proof.
  revert acc w. induction us1 as [|u us1 IH]; intros acc w; cbn [Checker.batch_loop app].
  - intros H _. now injection H as -> ->.
  - destruct (is_set E w) as [[|] w']; cbn [List.length].
    + intros H Hl. injection H as <- _. lia.
    + destruct (Checker.check E self u w') as [[r|[|k m]] w2].
      * intros H Hl. apply IH; [exact H|]. rewrite length_app. simpl. lia.
      * intros H Hl. injection H as <- _. lia.
      * intros H Hl. apply IH; [exact H|]. rewrite length_app. simpl. lia.
Qed.

Lemma advanced_emit (w : World) : advanced (emit EAdvance w) = S (advanced w).
Proof.
  unfold advanced, emit. cbn [trace]. rewrite filter_snoc, length_app. simpl. lia.
Qed.

Hypothesis no_sigint : forall t, sigint E t = false.
Hypothesis no_kbd : no_interrupt E.

(** With no SIGINT and no interrupt the loop runs to the end: one
    result per username, its [username] field that username, and one
    [progress.advance] each. *)
Lemma batch_loop_complete (us : list string) (acc : list Result) (w : World) :
  shutdown w = false ->
  exists more w',
    Checker.batch_loop E self us acc w = (acc ++ more, w')
    /\ map username more = us
    /\ advanced w' = advanced w + List.length us
    /\ shutdown w' = false.
Proof.
  revert acc w. induction us as [|u us IH]; intros acc w Hs; cbn [Checker.batch_loop].
  - exists [], w. rewrite app_nil_r. repeat split; [simpl; lia | exact Hs].
  - destruct (@is_set_quiet E no_sigint w Hs) as [-> Hs1].
    pose proof (runs_check E self u (tick E w)) as Hruns.
    pose proof (@check_not_interrupt E self u (tick E w) no_kbd) as Hni.
    pose proof (@check_username E self u (tick E w)) as Hu.
    destruct (Checker.check E self u (tick E w)) as [[r|[|k m]] w2];
      cbn [fst snd] in *; [| congruence |].
    + assert (Hs2 : shutdown (emit EAdvance w2) = false).
      { cbn. rewrite (@runs_shutdown_quiet E _ _ no_sigint Hruns). exact Hs1. }
      destruct (IH (acc ++ [r]) (emit EAdvance w2) Hs2) as [more [w' [-> [Hm [Ha Hs']]]]].
      exists (r :: more), w'. split; [now rewrite <- app_assoc|]. split; [|split].
      * simpl. now rewrite (Hu w2 r eq_refl), Hm.
      * rewrite Ha, advanced_emit, (@runs_advanced E _ _ Hruns). simpl.
        change (advanced (tick E w)) with (advanced w). lia.
      * exact Hs'.
    + match goal with |- context [Logger.error ?lg ?msg w2] =>
        destruct (print_frame lg Logger.ERROR "ERROR" msg w2)
          as [Hp1 [_ [_ [_ [_ Hp2]]]]];
        change (Logger._print lg Logger.ERROR "ERROR" msg w2)
          with (Logger.error lg msg w2) in Hp1, Hp2;
        set (w3 := Logger.error lg msg w2) in *
      end.
      assert (Hs2 : shutdown (emit EAdvance w3) = false).
      { cbn. rewrite Hp1, (@runs_shutdown_quiet E _ _ no_sigint Hruns). exact Hs1. }
      destruct (IH (acc ++ [mkResult u TAKEN (now w3)]) (emit EAdvance w3) Hs2)
        as [more [w' [-> [Hm [Ha Hs']]]]].
      exists (mkResult u TAKEN (now w3) :: more), w'.
      split; [now rewrite <- app_assoc|]. split; [|split].
      * simpl. now rewrite Hm.
      * rewrite Ha, advanced_emit, Hp2, (@runs_advanced E _ _ Hruns). simpl.
        change (advanced (tick E w)) with (advanced w). lia.
      * exact Hs'.
Qed.

End BatchFacts.

Lemma nth_error_middle (A : Type) (l1 l2 : list A) (x : A) :
  nth_error ((l1 ++ [x]) ++ l2) (List.length l1) = Some x.
Proof.
  rewrite <- app_assoc. rewrite nth_error_app2 by lia.
  now rewrite Nat.sub_diag.
Qed.

(** C2.  With the shutdown event never set (and no interrupt raised
    by a request), [batch] returns one [Result] per username, in input
    order, each with that username, and [progress.advance] is called
    once per username.  The result at the position of a username is the
    one [check] returned for it, or, when [check] raised, a [Result]
    with status [TAKEN] for that username; the batch goes on after
    it. *)
Theorem batch_one_result_per_username
  (E : Env) (self : Checker.t) (us : list string) (w : World) :
  (forall t, sigint E t = false) ->
  shutdown w = false ->
  no_interrupt E ->
  exists rs w',
    Checker.batch E self us w = (rs, w')
    /\ map username rs = us
    /\ List.length rs = List.length us
    /\ advanced w' = advanced w + List.length us
    /\ (forall us1 u us2 rs1 w1,
          us = us1 ++ u :: us2 ->
          Checker.batch_loop E self us1 [] (emit (EAddTask (List.length us)) w)
          = (rs1, w1) ->
          match Checker.check E self u (snd (is_set E w1)) with
          | (Ok r, _) => nth_error rs (List.length us1) = Some r
          | (Raise _, w2) =>
              nth_error rs (List.length us1) = Some (mkResult u TAKEN (now w2))
          end).
Proof.
  intros Hq Hs Hni. unfold Checker.batch.
  set (w0 := emit (EAddTask (List.length us)) w).
  assert (Hs0 : shutdown w0 = false) by exact Hs.
  destruct (batch_loop_complete self Hq Hni us [] w0 Hs0) as [rs [w' [Hb [Hm [Ha _]]]]].
  cbn [app] in Hb. exists rs, w'. split; [exact Hb|]. split; [exact Hm|].
  split; [now rewrite <- Hm, length_map|]. split.
  { rewrite Ha. unfold w0, advanced, emit. cbn [trace].
    rewrite filter_snoc. cbn. now rewrite app_nil_r. }
  intros us1 u us2 rs1 w1 Hus H1.
  destruct (batch_loop_complete self Hq Hni us1 [] w0 Hs0)
    as [rs1' [w1' [Hb1 [Hm1 [_ Hs1]]]]].
  cbn [app] in Hb1. rewrite H1 in Hb1. injection Hb1 as <- <-.
  assert (Hl1 : List.length rs1 = List.length us1) by now rewrite <- Hm1, length_map.
  pose proof (@batch_loop_app E self us1 (u :: us2) [] rs1 w0 w1 H1 Hl1) as Happ.
  rewrite <- Hus, Hb in Happ. cbn [Checker.batch_loop] in Happ.
  destruct (@is_set_quiet E Hq w1 Hs1) as [Hset _]. rewrite Hset in Happ |- *.
  cbn [snd].
  pose proof (@check_not_interrupt E self u (tick E w1) Hni) as Hk.
  destruct (Checker.check E self u (tick E w1)) as [[r|[|k m]] w2]; cbn [fst] in Hk.
  - match type of Happ with _ = Checker.batch_loop E self us2 ?a ?x =>
      destruct (batch_loop_extends E self us2 a x) as [more [He _]] end.
    rewrite <- Happ in He. cbn [fst] in He. rewrite He, <- Hl1.
    apply nth_error_middle.
  - congruence.
  - match type of Happ with _ = Checker.batch_loop E self us2 ?a ?x =>
      destruct (batch_loop_extends E self us2 a x) as [more [He _]] end.
    rewrite <- Happ in He. cbn [fst] in He. rewrite He, <- Hl1.
    rewrite nth_error_middle. f_equal. f_equal.
    apply (print_frame (Checker.log self)).
Qed.

Lemma batch_one_result_per_username_witness :
  exists rs w',
    Checker.batch mixed_env default_checker three_names fresh = (rs, w')
    /\ map username rs = three_names
    /\ List.length rs = List.length three_names
    /\ advanced w' = advanced fresh + List.length three_names
    /\ (forall us1 u us2 rs1 w1,
          three_names = us1 ++ u :: us2 ->
          Checker.batch_loop mixed_env default_checker us1 []
            (emit (EAddTask (List.length three_names)) fresh)
          = (rs1, w1) ->
          match Checker.check mixed_env default_checker u (snd (is_set mixed_env w1)) with
          | (Ok r, _) => nth_error rs (List.length us1) = Some r
          | (Raise _, w2) =>
              nth_error rs (List.length us1) = Some (mkResult u TAKEN (now w2))
          end).
Proof.
  apply (@batch_one_result_per_username mixed_env default_checker three_names fresh).
  - intros t. reflexivity.
  - reflexivity.
  - intros t url p. simpl.
    destruct (String.eqb url _); [discriminate|].
    destruct (String.eqb url _); discriminate.
Defined.

Example batch_three_names :
  map (fun r => (username r, status r))
    (fst (Checker.batch mixed_env default_checker three_names fresh))
  = [("ab", TAKEN); ("gone", TAKEN); ("available_name", AVAILABLE)]
  /\ advanced (snd (Checker.batch mixed_env default_checker three_names fresh)) = 3
  /\ List.length (gets (snd (Checker.batch mixed_env default_checker three_names fresh)))
     = 5.
Proof. repeat split; vm_compute; reflexivity. Qed.

(* ================================================================== *)
(** ** A run that saw no SIGINT is the run without SIGINT *)

Section Coincide.

Variable E : Env.
Variable self : Checker.t.

Lemma tick_quiet (w : World) :
  shutdown (tick E w) = false -> tick (quiet E) w = tick E w.
Proof.
  unfold tick. cbn. intros H. apply orb_false_iff in H as [Hs Hi].
  now rewrite Hs, Hi.
Qed.

Lemma fetch_failed_quiet (u : string) (a : Z) (e : exn) (w : World) :
  shutdown (snd (Checker.fetch_failed E self u a e w)) = false ->
  Checker.fetch_failed (quiet E) self u a e w = Checker.fetch_failed E self u a e w.
Proof.
  unfold Checker.fetch_failed. destruct (_ <=? _)%Z; cbn [snd]; [reflexivity|].
  unfold sleep. intros H. now rewrite tick_quiet.
Qed.

Lemma fetch_body_quiet (u : string) (a : Z) (w : World) :
  shutdown (snd (Checker.fetch_body E self u a w)) = false ->
  Checker.fetch_body (quiet E) self u a w = Checker.fetch_body E self u a w.
Proof.
  unfold Checker.fetch_body.
  destruct (proxy_returns self w) as [p [pool ->]]. unfold sess_get.
  change (http_get (quiet E)) with (http_get E).
  set (w1 := emit _ _).
  assert (Hmono : forall e, shutdown (tick E w1) = true ->
            shutdown (snd (Checker.fetch_failed E self u a e (tick E w1))) = true).
  { intros e. exact (runs_shutdown_mono (runs_fetch_failed E self u a e (tick E w1))). }
  destruct (shutdown (tick E w1)) eqn:Ht.
  - destruct (http_get E _ _ _) as [r|[|k m]]; cbn [snd]; try congruence.
    + destruct (ok r); cbn [snd]; [congruence|]. rewrite Hmono; [discriminate|reflexivity].
    + rewrite Hmono; [discriminate | reflexivity].
  - rewrite (tick_quiet w1 Ht).
    destruct (http_get E _ _ _) as [r|[|k m]]; try reflexivity.
    + destruct (ok r); [reflexivity | apply fetch_failed_quiet].
    + apply fetch_failed_quiet.
Qed.

Lemma fetch_loop_quiet (fuel : nat) (u : string) (a : Z) (w : World) :
  shutdown (snd (Checker.fetch_loop E self fuel u a w)) = false ->
  Checker.fetch_loop (quiet E) self fuel u a w = Checker.fetch_loop E self fuel u a w.
Proof.
  revert a w. induction fuel as [|fuel IH]; intros a w; cbn [Checker.fetch_loop];
    [reflexivity|].
  destruct (a <? _)%Z; [|reflexivity].
  unfold is_set. cbv zeta.
  destruct (shutdown (tick E w)) eqn:Ht; cbn [snd]; [congruence|].
  intros H. rewrite (tick_quiet w Ht), Ht.
  pose proof (runs_fetch_loop E self fuel u (a + 1)) as Hrest.
  pose proof (fetch_body_quiet u (a + 1) (tick E w)) as Hb.
  destruct (Checker.fetch_body E self u (a + 1) (tick E w)) as [[r|] w2] eqn:Hbody;
    cbn [snd] in *.
  - now rewrite (Hb H).
  - assert (Hs2 : shutdown w2 = false).
    { destruct (shutdown w2) eqn:Hs2; [|reflexivity].
      now rewrite (runs_shutdown_mono (Hrest w2) Hs2) in H. }
    rewrite (Hb Hs2). now apply IH.
Qed.

Lemma check_quiet (u : string) (w : World) :
  shutdown (snd (Checker.check E self u w)) = false ->
  Checker.check (quiet E) self u w = Checker.check E self u w.
Proof.
  unfold Checker.check, Checker.fetch.
  pose proof (fetch_loop_quiet (Z.to_nat (retries (Checker.cfg self))) u 0 w) as Hf.
  destruct (Checker.fetch_loop E self _ u 0 w) as [[html|e] w1]; cbn [snd] in *.
  - intros H. rewrite Hf; [reflexivity|].
    rewrite <- H. symmetry.
    destruct (Checker.parse E html); apply (print_frame (Checker.log self)).
  - intros H. now rewrite Hf.
Qed.

(** The event is not touched by printing. *)
Ltac print_keeps_shutdown :=
  unfold Logger.warning, Logger.error, Logger.success, Logger.info;
  match goal with
  | |- context [shutdown (Logger._print ?lg ?l ?n ?m ?x)] =>
      let H := fresh in
      destruct (print_frame lg l n m x) as [H _]; rewrite H; clear H
  end.

Lemma batch_loop_shutdown_mono (us : list string) (acc : list Result) (w : World) :
  us <> [] -> shutdown w = true ->
  shutdown (snd (Checker.batch_loop E self us acc w)) = true.
Proof.
  intros Hne Hs. destruct us as [|u us]; [congruence|]. cbn [Checker.batch_loop].
  unfold is_set. cbv zeta.
  assert (Ht : shutdown (tick E w) = true) by (unfold tick; cbn; now rewrite Hs).
  rewrite Ht. cbn [snd]. print_keeps_shutdown. exact Ht.
Qed.

Lemma batch_loop_quiet (us : list string) (acc : list Result) (w : World) :
  shutdown (snd (Checker.batch_loop E self us acc w)) = false ->
  Checker.batch_loop (quiet E) self us acc w = Checker.batch_loop E self us acc w.
Proof.
  revert acc w. induction us as [|u us IH]; intros acc w; cbn [Checker.batch_loop];
    [reflexivity|].
  unfold is_set. cbv zeta.
  destruct (shutdown (tick E w)) eqn:Ht.
  - cbn [snd]. print_keeps_shutdown. congruence.
  - rewrite (tick_quiet w Ht), Ht.
    pose proof (check_quiet u (tick E w)) as Hc.
    destruct (Checker.check E self u (tick E w)) as [[r|[|k m]] w2] eqn:Hcheck;
      cbn [snd] in *.
    + intros H.
      assert (Hs2 : shutdown w2 = false).
      { destruct (shutdown w2) eqn:Hs2; [|reflexivity].
        destruct us as [|u' us'];
          [cbn [Checker.batch_loop snd emit shutdown] in H; congruence|].
        rewrite batch_loop_shutdown_mono in H; [discriminate | discriminate | exact Hs2]. }
      rewrite (Hc Hs2). now apply IH.
    + intros H. rewrite Hc; [reflexivity|].
      rewrite <- H. cbn. symmetry. apply (print_frame (Checker.log self)).
    + intros H.
      match type of H with
        context [Checker.batch_loop E self us ?a (emit EAdvance ?x)] =>
          assert (Hs3 : shutdown x = false)
      end.
      { match goal with |- shutdown ?x = false => destruct (shutdown x) eqn:Hs3 end;
          [|reflexivity].
        destruct us as [|u' us'];
          [cbn [Checker.batch_loop snd emit shutdown] in H; congruence|].
        rewrite batch_loop_shutdown_mono in H; [discriminate | discriminate | exact Hs3]. }
      rewrite Hc; [now apply IH|].
      rewrite <- Hs3. symmetry. apply (print_frame (Checker.log self)).
Qed.

End Coincide.

(* ================================================================== *)
(** ** Cancellation of a batch *)

Lemma batch_cancelled_at_start (E : Env) (self : Checker.t) (us : list string) (w : World) :
  shutdown w = true ->
  exists w', Checker.batch E self us w = ([], w') /\ gets w' = gets w.
Proof.
  intros Hs. unfold Checker.batch. set (w0 := emit _ w).
  assert (Hg0 : gets w0 = gets w).
  { unfold w0, gets, emit. cbn [trace]. rewrite filter_snoc. cbn. apply app_nil_r. }
  destruct us as [|u us]; cbn [Checker.batch_loop].
  - now exists w0.
  - unfold is_set. cbv zeta.
    assert (Ht : shutdown (tick E w0) = true) by (unfold tick; cbn; now rewrite Hs).
    rewrite Ht. eexists. split; [reflexivity|].
    unfold Logger.warning.
    destruct (print_frame (Checker.log self) Logger.WARNING "WARNING"
                "Shutdown requested, stopping..." (tick E w0)) as [_ [_ [_ [Hg _]]]].
    rewrite Hg. exact Hg0.
Qed.

Lemma batch_cancelled_after (E : Env) (self : Checker.t)
  (us1 us2 : list string) (w : World) (rs : list Result) (w1 : World) :
  us2 <> [] ->
  Checker.batch_loop E self us1 [] (emit (EAddTask (List.length (us1 ++ us2))) w)
  = (rs, w1) ->
  List.length rs = List.length us1 ->
  shutdown w1 = false ->
  sigint E (now w1) = true ->
  exists w2,
    Checker.batch E self (us1 ++ us2) w = (rs, w2)
    /\ gets w2 = gets w1
    /\ exists rest w3, Checker.batch (quiet E) self (us1 ++ us2) w = (rs ++ rest, w3).
Proof.
  intros Hne H1 Hl Hs1 Hsig. unfold Checker.batch.
  set (w0 := emit _ w) in *.
  rewrite (@batch_loop_app E self us1 us2 [] rs w0 w1 H1 Hl).
  destruct us2 as [|u us2]; [congruence|]. cbn [Checker.batch_loop].
  unfold is_set. cbv zeta.
  assert (Ht : shutdown (tick E w1) = true) by (unfold tick; cbn; now rewrite Hs1, Hsig).
  rewrite Ht. eexists. split; [reflexivity|]. split.
  - unfold Logger.warning.
    destruct (print_frame (Checker.log self) Logger.WARNING "WARNING"
                "Shutdown requested, stopping..." (tick E w1)) as [_ [_ [_ [Hg _]]]].
    now rewrite Hg.
  - assert (Hq : Checker.batch_loop (quiet E) self us1 [] w0 = (rs, w1)).
    { rewrite batch_loop_quiet; [exact H1 | now rewrite H1]. }
    rewrite (@batch_loop_app (quiet E) self us1 (u :: us2) [] rs w0 w1 Hq Hl).
    destruct (batch_loop_extends (quiet E) self (u :: us2) rs w1) as [rest [He _]].
    exists rest, (snd (Checker.batch_loop (quiet E) self (u :: us2) rs w1)).
    rewrite <- He. apply surjective_pairing.
Qed.

(** C4.  If the shutdown event is set when the batch starts, [batch]
    returns no result and issues no request.  If the first [k]
    usernames completed with the event unset and SIGINT arrives before
    the next username is taken up, [batch] returns exactly those [k]
    results and issues no further request; they are the first [k]
    results of the same run without the signal. *)
Theorem batch_shutdown_prefix (E : Env) (self : Checker.t) :
  (forall us w,
      shutdown w = true ->
      exists w', Checker.batch E self us w = ([], w') /\ gets w' = gets w)
  /\ (forall us1 us2 w rs w1,
        us2 <> [] ->
        Checker.batch_loop E self us1 [] (emit (EAddTask (List.length (us1 ++ us2))) w)
        = (rs, w1) ->
        List.length rs = List.length us1 ->
        shutdown w1 = false ->
        sigint E (now w1) = true ->
        exists w2,
          Checker.batch E self (us1 ++ us2) w = (rs, w2)
          /\ gets w2 = gets w1
          /\ exists rest w3,
               Checker.batch (quiet E) self (us1 ++ us2) w = (rs ++ rest, w3)).
Proof.
  split.
  - intros us w. apply batch_cancelled_at_start.
  - intros us1 us2 w rs w1. apply batch_cancelled_after.
Qed.

Lemma batch_shutdown_prefix_witness :
  (exists w', Checker.batch sigint_at_6 default_checker five_names already_set = ([], w')
              /\ gets w' = gets already_set)
  /\ (exists w2,
        Checker.batch sigint_at_6 default_checker (["a"; "b"] ++ ["c"; "d"; "e"]) fresh
        = ([mkResult "a" TAKEN 3; mkResult "b" TAKEN 6], w2)
        /\ gets w2
           = gets (snd (Checker.batch_loop sigint_at_6 default_checker ["a"; "b"] []
                          (emit (EAddTask 5) fresh)))
        /\ exists rest w3,
             Checker.batch (quiet sigint_at_6) default_checker
               (["a"; "b"] ++ ["c"; "d"; "e"]) fresh
             = ([mkResult "a" TAKEN 3; mkResult "b" TAKEN 6] ++ rest, w3)).
Proof.
  split.
  - exact (proj1 (batch_shutdown_prefix sigint_at_6 default_checker)
             five_names already_set eq_refl).
  - refine (proj2 (batch_shutdown_prefix sigint_at_6 default_checker)
              ["a"; "b"] ["c"; "d"; "e"] fresh
              [mkResult "a" TAKEN 3; mkResult "b" TAKEN 6]
              (snd (Checker.batch_loop sigint_at_6 default_checker ["a"; "b"] []
                      (emit (EAddTask 5) fresh)))
              _ _ _ _ _).
    + discriminate.
    + vm_compute. reflexivity.
    + reflexivity.
    + vm_compute. reflexivity.
    + vm_compute. reflexivity.
Defined.

Example batch_cut_after_two :
  map (fun r => (username r, status r))
    (fst (Checker.batch sigint_at_6 default_checker five_names fresh))
  = [("a", TAKEN); ("b", TAKEN)]
  /\ List.length (gets (snd (Checker.batch sigint_at_6 default_checker five_names fresh)))
     = 2
  /\ fst (Checker.batch sigint_at_6 default_checker five_names already_set) = [].
Proof. repeat split; vm_compute; reflexivity. Qed.

(* ================================================================== *)
(** ** A check under shutdown *)

Section UnderShutdown.

Variable E : Env.
Variable self : Checker.t.

(** [fuel] never runs out: any amount from [retries - attempt] on
    gives the same run. *)
Lemma fetch_loop_fuel (fuel : nat) (u : string) (a : Z) (w : World) :
  Z.to_nat (retries (Checker.cfg self) - a) <= fuel ->
  Checker.fetch_loop E self fuel u a w
  = Checker.fetch_loop E self (Z.to_nat (retries (Checker.cfg self) - a)) u a w.
Proof.
  revert a w. induction fuel as [|fuel IH]; intros a w Hle.
  - replace (Z.to_nat (retries (Checker.cfg self) - a)) with 0 by lia. reflexivity.
  - destruct (Z.ltb_spec a (retries (Checker.cfg self))) as [Hlt|Hge].
    + replace (Z.to_nat (retries (Checker.cfg self) - a))
        with (S (Z.to_nat (retries (Checker.cfg self) - (a + 1)))) by lia.
      cbn [Checker.fetch_loop]. apply Z.ltb_lt in Hlt as Hb. rewrite Hb.
      destruct (is_set E w) as [[|] w1]; [reflexivity|].
      destruct (Checker.fetch_body E self u (a + 1) w1) as [[r|] w2]; [reflexivity|].
      apply IH. lia.
    + replace (Z.to_nat (retries (Checker.cfg self) - a)) with 0 by lia.
      cbn [Checker.fetch_loop]. apply Z.ltb_ge in Hge. now rewrite Hge.
Qed.

(** From a head of the loop, [fetch] goes on as the loop does there. *)
Lemma fetch_from_head (u : string) (w0 : World) (a : Z) (w : World) :
  Checker.at_head E self u w0 a w ->
  Checker.fetch E self u w0
  = Checker.fetch_loop E self (Z.to_nat (retries (Checker.cfg self) - a)) u a w.
Proof.
  intros H. induction H as [|a w w2 _ IH Hlt Hset Hbody].
  - unfold Checker.fetch. now rewrite Z.sub_0_r.
  - rewrite IH.
    replace (Z.to_nat (retries (Checker.cfg self) - a))
      with (S (Z.to_nat (retries (Checker.cfg self) - (a + 1)))) by lia.
    cbn [Checker.fetch_loop]. apply Z.ltb_lt in Hlt. rewrite Hlt.
    destruct (is_set E w) as [stop w1]. cbn [fst snd] in *. subst stop.
    now rewrite Hbody.
Qed.

(** At a head of the loop with the event set, the loop returns the
    empty string and issues no request. *)
Lemma fetch_loop_stops (fuel : nat) (u : string) (a : Z) (w : World) :
  fst (is_set E w) = true ->
  exists w', Checker.fetch_loop E self fuel u a w = (Ok EmptyString, w')
             /\ gets w' = gets w.
Proof.
  intros Hset. destruct fuel as [|fuel]; cbn [Checker.fetch_loop]; [eauto|].
  destruct (a <? _)%Z; [|eauto].
  destruct (is_set E w) as [stop w1] eqn:His. cbn [fst] in Hset. subst stop.
  exists w1. split; [reflexivity|].
  unfold is_set in His. injection His as _ <-. reflexivity.
Qed.

Hypothesis empty_document : bs4.find "h1" (html_parser E EmptyString) = None.

Lemma check_of_empty (u : string) (w w1 : World) :
  Checker.fetch E self u w = (Ok EmptyString, w1) ->
  exists w2, Checker.check E self u w = (Ok (mkResult u TAKEN (now w1)), w2).
Proof.
  intros Hf. unfold Checker.check. rewrite Hf.
  assert (Hp : Checker.parse E EmptyString = TAKEN).
  { unfold Checker.parse. now rewrite empty_document. }
  rewrite Hp. cbv zeta. unfold Logger.error.
  match goal with
  | |- context [now (Logger._print ?lg ?l ?n ?m ?x)] =>
      destruct (print_frame lg l n m x) as [_ [Hnow _]]; rewrite Hnow
  end.
  eexists. reflexivity.
Qed.

End UnderShutdown.

(** C10.  When the shutdown event is set at a head of the retry loop
    (before the first attempt, or between two attempts) [fetch] returns
    the empty string and raises nothing; the empty document has no
    [h1], so [check] completes with a [Result] for that username whose
    status is [TAKEN]. *)
Theorem check_under_shutdown
  (E : Env) (self : Checker.t) (u : string) (w0 : World) (a : Z) (w : World) :
  bs4.find "h1" (html_parser E EmptyString) = None ->
  Checker.at_head E self u w0 a w ->
  fst (is_set E w) = true ->
  exists w1,
    Checker.fetch E self u w0 = (Ok EmptyString, w1)
    /\ gets w1 = gets w
    /\ exists w2,
         Checker.check E self u w0 = (Ok (mkResult u TAKEN (now w1)), w2)
         /\ username (mkResult u TAKEN (now w1)) = u
         /\ status (mkResult u TAKEN (now w1)) <> AVAILABLE
         /\ status (mkResult u TAKEN (now w1)) <> BANNED.
Proof.
  intros Hempty Hhead Hset.
  destruct (fetch_loop_stops E self
              (Z.to_nat (retries (Checker.cfg self) - a)) u a w Hset) as [w1 [Hl Hg]].
  rewrite <- (fetch_from_head Hhead) in Hl.
  exists w1. split; [exact Hl|]. split; [exact Hg|].
  destruct (@check_of_empty E self Hempty u w0 w1 Hl) as [w2 Hc].
  exists w2. repeat split; [exact Hc | discriminate | discriminate].
Qed.

Lemma check_under_shutdown_witness :
  exists w1,
    Checker.fetch down_sigint_2 default_checker "ab" fresh = (Ok EmptyString, w1)
    /\ gets w1 = gets after_first_attempt
    /\ exists w2,
         Checker.check down_sigint_2 default_checker "ab" fresh
         = (Ok (mkResult "ab" TAKEN (now w1)), w2)
         /\ username (mkResult "ab" TAKEN (now w1)) = "ab"
         /\ status (mkResult "ab" TAKEN (now w1)) <> AVAILABLE
         /\ status (mkResult "ab" TAKEN (now w1)) <> BANNED.
Proof.
  apply (@check_under_shutdown down_sigint_2 default_checker "ab" fresh 1%Z
           after_first_attempt).
  - reflexivity.
  - apply (@Checker.head_retry down_sigint_2 default_checker "ab" fresh 0%Z fresh
             after_first_attempt).
    + apply Checker.head_start.
    + simpl. lia.
    + reflexivity.
    + vm_compute. reflexivity.
  - vm_compute. reflexivity.
Defined.

Example check_cancelled :
  fst (Checker.check down_sigint_2 default_checker "ab" fresh)
  = Ok (mkResult "ab" TAKEN 4)
  /\ gets (snd (Checker.check down_sigint_2 default_checker "ab" fresh))
     = [EGet "https://guns.lol/ab" None]
  /\ fst (Checker.check down_sigint_2 default_checker "ab" already_set)
     = Ok (mkResult "ab" TAKEN 1)
  /\ gets (snd (Checker.check down_sigint_2 default_checker "ab" already_set)) = [].
Proof. repeat split; vm_compute; reflexivity. Qed.


(* ================================================================== *)
(** * Further properties of the source *)

(** ** Formatting and drawing proxies *)

Lemma prefix_append (a b : string) : String.prefix a (String.append a b) = true.
Proof.
  induction a as [|c a IH]; simpl; [now destruct b|].
  destruct (ascii_dec c c); [exact IH | congruence].
Qed.

Lemma contains_prefix (a b : string) : String.prefix a b = true -> Text.contains a b = true.
Proof. intros H. destruct b; cbn [Text.contains]; now rewrite H. Qed.

Lemma contains_cons (a : string) (c : ascii) (b : string) :
  Text.contains a b = true -> Text.contains a (String c b) = true.
Proof. intros H. cbn [Text.contains]. rewrite H. apply orb_true_r. Qed.

(** X1.  [_fmt] always returns the two keys [http] and [https] with one
    and the same URL, and that URL carries a scheme: the entry itself
    when it has one, the entry behind [http://] otherwise. *)
Theorem fmt_always_has_scheme (proxy : string) :
  exists url,
    ProxyPool._fmt proxy = [("http", url); ("https", url)]
    /\ Text.contains "://" url = true
    /\ (Text.contains "://" proxy = true -> url = proxy)
    /\ (Text.contains "://" proxy = false -> url = String.append "http://" proxy).
Proof.
  unfold ProxyPool._fmt. destruct (Text.contains "://" proxy) eqn:Hc; cbn [negb].
  - exists proxy. repeat split; [exact Hc | discriminate].
  - exists (String.append "http://" proxy). repeat split; [|discriminate].
    change (String.append "http://" proxy)
      with (String "h" (String "t" (String "t" (String "p"
              (String.append "://" proxy))))).
    do 4 apply contains_cons. apply contains_prefix, prefix_append.
Qed.

(** X2.  [next] never raises and never changes the loaded entries: on
    an empty pool it returns [None] and leaves the pool as it is; on any
    other pool, wherever the cursor stands, it returns an entry and
    leaves the cursor within bounds. *)
Theorem next_never_raises (p : ProxyPool.t) :
  exists v p',
    ProxyPool.next p = (Ok v, p')
    /\ ProxyPool.raw p' = ProxyPool.raw p
    /\ match ProxyPool.raw p with
       | [] => v = None /\ p' = p
       | _ :: _ =>
           ProxyPool.idx p' < ProxyPool.count p
           /\ exists e, In e (ProxyPool.raw p) /\ v = Some (ProxyPool._fmt e)
       end.
Proof.
  destruct (ProxyPool.raw p) as [|x xs] eqn:Hraw.
  - rewrite next_empty by exact Hraw. exists None, p. now rewrite Hraw.
  - rewrite next_advances by congruence. rewrite Hraw.
    assert (Hi : (ProxyPool.idx p + 1) mod List.length (x :: xs) < List.length (x :: xs))
      by (apply Nat.mod_upper_bound; simpl; lia).
    eexists. eexists. split; [reflexivity|]. cbn [ProxyPool.raw ProxyPool.idx].
    split; [reflexivity|]. split.
    + unfold ProxyPool.count. now rewrite Hraw.
    + eexists. split; [|reflexivity]. now apply nth_In.
Qed.

(** X3.  [random] returns [None] on an empty pool without drawing, and
    otherwise the formatting of one of the loaded entries after exactly
    one draw; it never raises. *)
Theorem random_picks_loaded_entry (p : ProxyPool.t) (g : Random) :
  match ProxyPool.raw p with
  | [] => ProxyPool_random p g = (Ok None, g)
  | _ :: _ =>
      exists e g',
        ProxyPool_random p g = (Ok (Some (ProxyPool._fmt e)), g')
        /\ In e (ProxyPool.raw p)
        /\ cursor g' = S (cursor g)
  end.
Proof.
  unfold ProxyPool_random, random_choice.
  destruct (ProxyPool.raw p) as [|x xs]; [reflexivity|].
  unfold random.randbelow.
  assert (Hi : draws g (cursor g) mod List.length (x :: xs) < List.length (x :: xs))
    by (apply Nat.mod_upper_bound; simpl; lia).
  destruct (nth_error (x :: xs) _) as [e|] eqn:Hn.
  - exists e. eexists. split; [reflexivity|]. split; [|reflexivity].
    now apply nth_error_In in Hn.
  - apply nth_error_None in Hn. lia.
Qed.

Lemma selects_forall (P : string -> Prop) (all kept : list string) :
  ProxyLine.selects P all kept ->
  Forall P kept /\ List.length kept <= List.length all.
Proof.
  intros H. induction H as [|x all kept Hx _ [IH1 IH2]|x all kept Hx _ [IH1 IH2]].
  - split; [constructor | lia].
  - split; [now constructor | simpl; lia].
  - split; [exact IH1 | simpl; lia].
Qed.

Lemma nexts_empty (k : nat) (p : ProxyPool.t) :
  ProxyPool.raw p = [] -> ProxyPool.nexts k p = (repeat (Ok None) k, p).
Proof.
  intros Hraw. induction k as [|k IH]; cbn [ProxyPool.nexts repeat]; [reflexivity|].
  now rewrite next_empty, IH.
Qed.

Lemma init_pool_retained (f : opened) :
  Forall ProxyLine.retained (ProxyPool.raw (ProxyPool.__init__ f)).
Proof.
  destruct f as [|ls]; simpl; [constructor|].
  apply (selects_forall (load_lines_selects ls)).
Qed.


(** ** More on the generator *)

Lemma words_complete (cs : list ascii) (s : string) :
  Generator.over cs s -> In s (words cs (String.length s)).
Proof.
  unfold Generator.over. induction s as [|c s IH]; simpl; intros H.
  - now left.
  - inversion H as [|? ? Hc Hs]; subst. rewrite words_succ.
    apply in_flat_map. exists c. split; [exact Hc|].
    apply in_map. now apply IH.
Qed.

(** X5.  Exhaustive mode leaves no candidate out: every string over the
    character set whose length is within [[min_len, max_len]] is in
    the list [generate()] returns. *)
Theorem exhaustive_is_complete (g : Generator.t) (r : Random) (s : string) :
  Generator.count g = 0%Z ->
  Generator.over (Generator.charset g) s ->
  Generator.min_len g <= String.length s <= Generator.max_len g ->
  exists l, Generator.generate g r = (Ok l, r) /\ In s l.
Proof.
  intros Hc Ho Hlen. exists (Generator._all g). split.
  - unfold Generator.generate. now rewrite Hc.
  - rewrite all_blocks. apply in_flat_map. exists (String.length s). split.
    + unfold range. apply in_seq. lia.
    + now apply words_complete.
Qed.

Lemma exhaustive_is_complete_witness :
  exists l,
    Generator.generate (Generator.mk 1 2 Generator.ascii_lowercase 0) counting
    = (Ok l, counting)
    /\ In "zq" l.
Proof.
  apply exhaustive_is_complete.
  - reflexivity.
  - unfold Generator.over. simpl. repeat constructor; simpl; tauto.
  - simpl. lia.
Defined.

(** X6.  Construction of a generator fails in exactly one case, the
    count ["max"] with [max_len > 4], and then with [ValueError];
    otherwise the generator has the configured bounds (6 and 12 when
    absent), a character set of 26 or 36 characters, and the count 0
    for ["max"] or the configured integer (50 when absent).  [None] and
    the empty block give the same generator. *)
Theorem init_fails_only_on_long_max (cfg : option Generator.config) :
  let c := Generator.get cfg Generator.empty_config in
  let cnt_ := Generator.get (Generator.cfg_count c) (Generator.CntInt 50) in
  let max_ := Generator.get (Generator.cfg_max c) 12 in
  match Generator.__init__ cfg with
  | Raise e =>
      cnt_ = Generator.CntMax /\ 4 < max_
      /\ e = Exception "ValueError" "invalid literal for int() with base 10: 'max'"
  | Ok g =>
      (cnt_ = Generator.CntMax -> max_ <= 4)
      /\ Generator.min_len g = Generator.get (Generator.cfg_min c) 6
      /\ Generator.max_len g = max_
      /\ Generator.count g
         = match cnt_ with Generator.CntMax => 0%Z | Generator.CntInt n => n end
      /\ (List.length (Generator.charset g) = 26
          \/ List.length (Generator.charset g) = 36)
  end
  /\ Generator.__init__ None = Generator.__init__ (Some Generator.empty_config).
Proof.
  intros c cnt_ max_. split; [|reflexivity].
  unfold Generator.__init__. fold c. fold cnt_. fold max_.
  destruct cnt_ as [|n]; cbn [Generator.int andb].
  - destruct (Nat.leb_spec max_ 4) as [Hle|Hgt].
    + repeat split; try reflexivity; [intros _; exact Hle|].
      cbn [Generator.charset]. destruct (Generator.get _ true); [right|left]; reflexivity.
    + repeat split; [exact Hgt].
  - repeat split; try reflexivity; [discriminate|].
    cbn [Generator.charset]. destruct (Generator.get _ true); [right|left]; reflexivity.
Qed.

(** X7.  Degenerate ranges and counts.  In exhaustive mode an inverted
    range ([min_len > max_len]) gives the empty list.  In sampling
    mode a negative count gives the empty list without drawing, and an
    inverted range with a count of at least 1 raises [ValueError]
    before anything is drawn. *)
Theorem generate_degenerate (g : Generator.t) (r : Random) :
  Generator.max_len g < Generator.min_len g \/ (Generator.count g < 0)%Z ->
  Generator.generate g r
  = if (1 <=? Generator.count g)%Z
    then (Raise (Exception "ValueError" "empty range for randrange()"), r)
    else (Ok [], r).
Proof.
  intros H. unfold Generator.generate, Generator._random.
  destruct (Z.eqb_spec (Generator.count g) 0) as [H0|H0].
  - rewrite H0. cbn. destruct H as [H|H]; [|lia].
    unfold Generator._all, range.
    replace (Generator.max_len g + 1 - Generator.min_len g) with 0 by lia. reflexivity.
  - destruct (Z.leb_spec 1 (Generator.count g)) as [H1|H1].
    + destruct H as [H|H]; [|lia].
      destruct (Z.to_nat (Generator.count g)) as [|n] eqn:Hn; [lia|].
      cbn [Generator._random_n]. unfold Generator._random_one, random.randint.
      apply Nat.ltb_lt in H. now rewrite H.
    + replace (Z.to_nat (Generator.count g)) with 0 by lia. reflexivity.
Qed.

Lemma generate_degenerate_witness :
  Generator.generate (Generator.mk 3 2 Generator.ascii_lowercase 0) counting
  = (Ok [], counting)
  /\ Generator.generate (Generator.mk 2 3 Generator.ascii_lowercase (-4)) counting
     = (Ok [], counting)
  /\ Generator.generate (Generator.mk 3 2 Generator.ascii_lowercase 7) counting
     = (Raise (Exception "ValueError" "empty range for randrange()"), counting).
Proof.
  split; [|split].
  - apply (generate_degenerate (Generator.mk 3 2 Generator.ascii_lowercase 0)).
    left. simpl. lia.
  - apply (generate_degenerate (Generator.mk 2 3 Generator.ascii_lowercase (-4))).
    right. simpl. lia.
  - apply (generate_degenerate (Generator.mk 3 2 Generator.ascii_lowercase 7)).
    left. simpl. lia.
Defined.


(** ** The logger *)

Lemma dict_get_cases (A : Type) (d : list (string * A)) (key : string) (default : A) :
  (dict_get d key default = default /\ ~ In key (map fst d))
  \/ exists v, In (key, v) d /\ dict_get d key default = v.
Proof.
  induction d as [|[k v] d IH]; simpl.
  - left. tauto.
  - destruct (String.eqb_spec k key) as [->|Hne].
    + right. exists v. split; [now left | reflexivity].
    + destruct IH as [[Hd Hno]|[v' [Hin Hd]]].
      * left. split; [exact Hd | tauto].
      * right. exists v'. split; [now right | exact Hd].
Qed.

Lemma emit_changes (e : event) (w : World) : emit e w <> w.
Proof.
  intros H. apply (f_equal (fun x => List.length (trace x))) in H.
  unfold emit in H. cbn [trace] in H. rewrite length_app in H. simpl in H. lia.
Qed.

Lemma in_levels_print (n : nat) (msg : string) (w : World) :
  In n [10; 20; 25; 30; 40] ->
  Logger.error (Logger.mk n) msg w = emit (EPrint "ERROR" msg) w
  /\ (Logger.info (Logger.mk n) msg w = emit (EPrint "INFO" msg) w ->
      Logger.success (Logger.mk n) msg w = emit (EPrint "SUCCESS" msg) w)
  /\ (Logger.success (Logger.mk n) msg w = emit (EPrint "SUCCESS" msg) w ->
      Logger.warning (Logger.mk n) msg w = emit (EPrint "WARNING" msg) w).
Proof.
  unfold Logger.error, Logger.info, Logger.success, Logger.warning, Logger._print,
    Logger.ERROR, Logger.INFO, Logger.SUCCESS, Logger.WARNING.
  intros Hlv. simpl in Hlv.
  destruct Hlv as [H|[H|[H|[H|[H|[]]]]]]; rewrite <- H; cbn;
    repeat split; intros Hp; try reflexivity;
    now (symmetry in Hp; apply emit_changes in Hp).
Qed.

(** X8.  Whatever level name a logger is built with, its threshold is
    one of the five levels (the one named, or INFO's for a name that is
    not a level), so [error] always prints its line; and a logger that
    prints [info] prints [success], one that prints [success] prints
    [warning]. *)
Theorem logger_never_drops_errors
  (upper : string -> string) (level msg : string) (w : World) :
  let lg := Logger_init upper level in
  In (Logger.min_level lg) [10; 20; 25; 30; 40]
  /\ ((forall k, In k (map fst Logger_LEVELS) -> upper level <> k) ->
      Logger.min_level lg = 20)
  /\ Logger.error lg msg w = emit (EPrint "ERROR" msg) w
  /\ (Logger.info lg msg w = emit (EPrint "INFO" msg) w ->
      Logger.success lg msg w = emit (EPrint "SUCCESS" msg) w)
  /\ (Logger.success lg msg w = emit (EPrint "SUCCESS" msg) w ->
      Logger.warning lg msg w = emit (EPrint "WARNING" msg) w).
Proof.
  intros lg. unfold lg, Logger_init. cbn [Logger.min_level].
  destruct (dict_get_cases Logger_LEVELS (upper level) 20) as [[Hd Hno]|[v [Hin Hd]]];
    rewrite Hd.
  - split; [simpl; tauto|]. split; [reflexivity|].
    apply in_levels_print. simpl. tauto.
  - assert (Hlv : In v [10; 20; 25; 30; 40]) by exact (in_map snd _ _ Hin).
    split; [exact Hlv|]. split.
    + intros Hno. exfalso. apply (Hno (upper level)); [|reflexivity].
      exact (in_map fst _ _ Hin).
    + now apply in_levels_print.
Qed.

(** ** Classification, read backwards *)

(** X9.  [parse] answers [AVAILABLE] only for a body whose first [h1]
    lacks the ban phrase and has "Username not found" and whose first
    [h3] has "Claim this username"; it answers [BANNED] exactly when
    the first [h1] has the ban phrase.  Everything else is [TAKEN]. *)
Theorem parse_verdicts_exact (E : Env) (html : string) :
  let soup := html_parser E html in
  (Checker.parse E html = AVAILABLE
   <-> exists h1 h3,
         bs4.find "h1" soup = Some h1
         /\ Text.contains Checker.BAN (bs4.get_text h1) = false
         /\ Text.contains Checker.AVAILABLE_ (bs4.get_text h1) = true
         /\ bs4.find "h3" soup = Some h3
         /\ Text.contains Checker.CLAIM (bs4.get_text h3) = true)
  /\ (Checker.parse E html = BANNED
      <-> exists h1,
            bs4.find "h1" soup = Some h1
            /\ Text.contains Checker.BAN (bs4.get_text h1) = true).
Proof.
  intros soup. unfold Checker.parse. fold soup.
  destruct (bs4.find "h1" soup) as [h1|].
  - destruct (Text.contains Checker.BAN (bs4.get_text h1)) eqn:Hb.
    + split; split; try discriminate.
      * intros [h [h3 [Hh [Hb' _]]]]. injection Hh as <-. congruence.
      * intros _. now exists h1.
      * reflexivity.
    + destruct (Text.contains Checker.AVAILABLE_ (bs4.get_text h1)) eqn:Ha.
      * destruct (bs4.find "h3" soup) as [h3|].
        -- destruct (Text.contains Checker.CLAIM (bs4.get_text h3)) eqn:Hc.
           ++ split; split; try discriminate.
              ** intros _. now exists h1, h3.
              ** reflexivity.
              ** intros [h [Hh Hb']]. injection Hh as <-. congruence.
           ++ split; split; try discriminate.
              ** intros [h [h3' [_ [_ [_ [H3 Hc']]]]]]. injection H3 as <-. congruence.
              ** intros [h [Hh Hb']]. injection Hh as <-. congruence.
        -- split; split; try discriminate.
           ** intros [h [h3' [_ [_ [_ [H3 _]]]]]]. discriminate.
           ** intros [h [Hh Hb']]. injection Hh as <-. congruence.
      * split; split; try discriminate.
        -- intros [h [h3' [Hh [_ [Ha' _]]]]]. injection Hh as <-. congruence.
        -- intros [h [Hh Hb']]. injection Hh as <-. congruence.
  - split; split; try discriminate.
    + intros [h [h3' [Hh _]]]. discriminate.
    + intros [h [Hh _]]. discriminate.
Qed.

(** ** Attempts, one at a time *)

Section Attempts.

Variable E : Env.
Variable self : Checker.t.

Lemma gets_of_net (w : World) : gets w = filter is_get (net w).
Proof.
  unfold gets, net. induction (trace w) as [|e l IH]; [reflexivity|].
  simpl. destruct e; simpl; now rewrite ?IH.
Qed.

Lemma sleeps_of_net (w : World) : sleeps w = filter is_sleep (net w).
Proof.
  unfold sleeps, net. induction (trace w) as [|e l IH]; [reflexivity|].
  simpl. destruct e; simpl; now rewrite ?IH.
Qed.

(** What the body of the loop does, spelled out: the proxy is drawn,
    the request is issued at the current instant, one instant passes,
    and the outcome decides. *)
Lemma fetch_body_at (u : string) (a : Z) (w : World) :
  exists p pool,
    Checker._proxy self w = (Ok p, mkWorld (shutdown w) (now w) pool (trace w))
    /\ Checker.fetch_body E self u a w
       = let w2 := tick E (emit (EGet (Checker.URL u) p)
                             (mkWorld (shutdown w) (now w) pool (trace w))) in
         match http_get E (now w) (Checker.URL u) p with
         | Responded r =>
             if ok r then (Done (Ok (text r)), w2)
             else Checker.fetch_failed E self u a (Exception "HTTPError" "HTTP Error") w2
         | Failed KeyboardInterrupt => (Done (Raise KeyboardInterrupt), w2)
         | Failed (Exception k m) =>
             Checker.fetch_failed E self u a (Exception k m) w2
         end.
Proof.
  destruct (proxy_returns self w) as [p [pool Hp]]. exists p, pool.
  split; [exact Hp|]. unfold Checker.fetch_body. rewrite Hp. reflexivity.
Qed.

Lemma fetch_failed_facts (u : string) (a : Z) (e : exn) (w : World) :
  let last := (retries (Checker.cfg self) <=? a)%Z in
  let w' := snd (Checker.fetch_failed E self u a e w) in
  fst (Checker.fetch_failed E self u a e w) = (if last then Done (Raise e) else Again)
  /\ net w'
     = net w ++ (if last then []
                 else [ESleep (Qmult (delay (Checker.cfg self)) (inject_Z a))])
  /\ now w' = (if last then 0 else 1) + now w
  /\ proxies w' = proxies w
  /\ ((forall t, sigint E t = false) -> shutdown w' = shutdown w).
Proof.
  destruct (@fetch_failed_net E self u a e w) as [Hfst Hnet].
  split; [exact Hfst|]. split; [exact Hnet|].
  unfold Checker.fetch_failed, Logger.error. cbv zeta.
  destruct (print_frame (Checker.log self) Logger.ERROR "ERROR"
              (String.append "Attempt "
                 (String.append (Text.of_Z a)
                    (String.append " failed for "
                       (String.append u (String.append ": " (exn_str e)))))) w)
    as [Hs [Hn [Hp _]]].
  destruct (_ <=? _)%Z; cbn [snd].
  - split; [exact Hn|]. split; [exact Hp|]. intros _. exact Hs.
  - unfold sleep, tick. cbn [now emit proxies shutdown]. rewrite Hs, Hn, Hp.
    split; [reflexivity|]. split; [reflexivity|].
    intros Hq. rewrite Hq. apply orb_false_r.
Qed.

Hypothesis no_sigint : forall t, sigint E t = false.

(** A pass whose request fails, the event unset. *)
Lemma pass_fail_at (fuel : nat) (u : string) (a : Z) (w : World) :
  (a < retries (Checker.cfg self))%Z ->
  shutdown w = false ->
  (forall p, failing (http_get E (S (now w)) (Checker.URL u) p)) ->
  let last := (retries (Checker.cfg self) <=? a + 1)%Z in
  exists p k m w',
    shutdown w' = false
    /\ net w'
       = net w
         ++ EGet (Checker.URL u) p
            :: (if last then []
                else [ESleep (Qmult (delay (Checker.cfg self)) (inject_Z (a + 1)))])
    /\ now w' = (if last then 2 else 3) + now w
    /\ Checker.fetch_loop E self (S fuel) u a w
       = if last then (Raise (Exception k m), w')
         else Checker.fetch_loop E self fuel u (a + 1) w'.
Proof.
  intros Ha Hs Hfail last. cbn [Checker.fetch_loop].
  apply Z.ltb_lt in Ha. rewrite Ha.
  destruct (@is_set_quiet E no_sigint w Hs) as [-> Hs1].
  destruct (fetch_body_at u (a + 1) (tick E w)) as [p [pool [_ ->]]].
  cbv zeta. change (now (tick E w)) with (S (now w)).
  set (w2 := tick E (emit _ _)).
  assert (H2 : shutdown w2 = false /\ now w2 = 2 + now w
               /\ net w2 = net w ++ [EGet (Checker.URL u) p]).
  { unfold w2, tick. cbn [shutdown now emit trace].
    rewrite !no_sigint, !orb_false_r.
    split; [exact Hs|]. split; [reflexivity|].
    unfold net, emit. cbn [trace]. now rewrite filter_snoc. }
  destruct H2 as [Hs2 [Hn2 Hnet2]].
  assert (Hgo : forall k m,
             exists w',
               shutdown w' = false
               /\ net w' = net w
                           ++ EGet (Checker.URL u) p
                              :: (if last then []
                                  else [ESleep (Qmult (delay (Checker.cfg self))
                                                  (inject_Z (a + 1)))])
               /\ now w' = (if last then 2 else 3) + now w
               /\ (let (s, w3) := Checker.fetch_failed E self u (a + 1) (Exception k m) w2 in
                   match s with
                   | Done r => (r, w3)
                   | Again => Checker.fetch_loop E self fuel u (a + 1) w3
                   end)
                  = if last then (Raise (Exception k m), w')
                    else Checker.fetch_loop E self fuel u (a + 1) w').
  { intros k m.
    destruct (fetch_failed_facts u (a + 1) (Exception k m) w2)
      as [Hfst [Hnet [Hnow [_ Hsd]]]].
    destruct (Checker.fetch_failed E self u (a + 1) (Exception k m) w2) as [s w3].
    cbn [fst snd] in *. fold last in Hfst, Hnet, Hnow. exists w3.
    split; [now rewrite (Hsd no_sigint)|]. split.
    - rewrite Hnet, Hnet2, <- app_assoc. reflexivity.
    - split; [rewrite Hnow, Hn2; destruct last; lia|].
      subst s. destruct last; reflexivity. }
  pose proof (Hfail p) as Hf.
  destruct (http_get E (S (now w)) (Checker.URL u) p) as [r|[|k m]]; simpl in Hf.
  - rewrite Hf. destruct (Hgo "HTTPError" "HTTP Error") as [w' H].
    exists p, "HTTPError", "HTTP Error", w'. exact H.
  - destruct Hf.
  - destruct (Hgo k m) as [w' H]. exists p, k, m, w'. exact H.
Qed.

(** A pass whose request is answered with a good status. *)
Lemma pass_win_at (fuel : nat) (u : string) (a : Z) (w : World) (body : string) :
  (a < retries (Checker.cfg self))%Z ->
  shutdown w = false ->
  (forall p, http_get E (S (now w)) (Checker.URL u) p
             = Responded (mkResponse true body)) ->
  exists p w',
    Checker.fetch_loop E self (S fuel) u a w = (Ok body, w')
    /\ net w' = net w ++ [EGet (Checker.URL u) p]
    /\ shutdown w' = false.
Proof.
  intros Ha Hs Hwin. cbn [Checker.fetch_loop].
  apply Z.ltb_lt in Ha. rewrite Ha.
  destruct (@is_set_quiet E no_sigint w Hs) as [-> Hs1].
  destruct (fetch_body_at u (a + 1) (tick E w)) as [p [pool [_ ->]]].
  cbv zeta. change (now (tick E w)) with (S (now w)). rewrite Hwin. cbn [ok text].
  exists p. eexists. split; [reflexivity|]. split.
  - unfold net, tick, emit. cbn [trace]. now rewrite filter_snoc.
  - unfold tick. cbn [shutdown now emit]. rewrite !no_sigint, !orb_false_r.
    exact Hs.
Qed.

End Attempts.

(** ** Retry and backoff in general *)

Section Backoff.

Variable E : Env.
Variable self : Checker.t.
Variable u : string.

Hypothesis no_sigint : forall t, sigint E t = false.

(** The sleep that follows the [i]-th failed attempt. *)
Let nap (i : Z) : event := ESleep (Qmult (delay (Checker.cfg self)) (inject_Z i)).

(** [j] failed attempts, none of them the last one allowed: [j]
    requests, the sleeps [delay * (a + 1)], ..., [delay * (a + j)],
    three instants each, and the loop stands at its head again. *)
Lemma loop_after_failures (j fuel : nat) (a : Z) (w : World) :
  shutdown w = false ->
  (a + Z.of_nat j < retries (Checker.cfg self))%Z ->
  (forall i, i < j ->
     forall p, failing (http_get E (now w + 3 * i + 1) (Checker.URL u) p)) ->
  exists ps w',
    Checker.fetch_loop E self (j + fuel) u a w
    = Checker.fetch_loop E self fuel u (a + Z.of_nat j) w'
    /\ shutdown w' = false
    /\ now w' = now w + 3 * j
    /\ gets w' = gets w ++ map (EGet (Checker.URL u)) ps
    /\ List.length ps = j
    /\ sleeps w' = sleeps w ++ map (fun i => nap (a + Z.of_nat i)) (seq 1 j).
Proof.
  revert a w. induction j as [|j IH]; intros a w Hs Ha Hfail.
  - exists [], w. rewrite Z.add_0_r, Nat.mul_0_r, Nat.add_0_r, !app_nil_r.
    repeat split; assumption.
  - assert (Hlt : (a < retries (Checker.cfg self))%Z) by lia.
    assert (Hf0 : forall p, failing (http_get E (S (now w)) (Checker.URL u) p)).
    { intros p. specialize (Hfail 0 (Nat.lt_0_succ j) p).
      now replace (now w + 3 * 0 + 1) with (S (now w)) in Hfail by lia. }
    destruct (@pass_fail_at E self no_sigint (j + fuel) u a w Hlt Hs Hf0)
      as [p [k [m [w1 [Hs1 [Hnet1 [Hnow1 Hrun]]]]]]].
    assert (Hnl : (retries (Checker.cfg self) <=? a + 1)%Z = false)
      by (apply Z.leb_gt; lia).
    rewrite Hnl in Hnet1, Hnow1, Hrun.
    destruct (IH (a + 1)%Z w1 Hs1) as [ps [w' [Hrun' [Hs' [Hnow' [Hg' [Hl' Hsl']]]]]]].
    { lia. }
    { intros i Hi q. specialize (Hfail (S i) (proj1 (Nat.succ_lt_mono i j) Hi) q).
      now replace (now w + 3 * S i + 1) with (now w1 + 3 * i + 1) in Hfail by lia. }
    exists (p :: ps), w'. cbn [Nat.add]. rewrite Hrun, Hrun'.
    split; [f_equal; lia|]. split; [exact Hs'|]. split; [lia|].
    rewrite Hg', Hsl', (gets_of_net w1), (sleeps_of_net w1), Hnet1.
    rewrite !filter_app. cbn [filter is_get is_sleep].
    rewrite <- (gets_of_net w), <- (sleeps_of_net w), <- !app_assoc.
    split; [reflexivity|]. split; [simpl; now rewrite Hl'|].
    cbn [seq map app]. f_equal. apply f_equal2; [reflexivity|].
    rewrite <- (seq_shift j 1), map_map. apply map_ext. intros i.
    replace (a + Z.of_nat (S i))%Z with (a + 1 + Z.of_nat i)%Z by lia. reflexivity.
Qed.

End Backoff.





(** ** Bounds on what a fetch does *)

Section FetchBounds.

Variable E : Env.
Variable self : Checker.t.

Lemma fetch_body_counts (u : string) (a : Z) (w : World) :
  let last := (retries (Checker.cfg self) <=? a)%Z in
  let w' := snd (Checker.fetch_body E self u a w) in
  List.length (gets w') = S (List.length (gets w))
  /\ List.length (sleeps w') <= S (List.length (sleeps w))
  /\ (fst (Checker.fetch_body E self u a w) = Again -> last = false)
  /\ (fst (Checker.fetch_body E self u a w) <> Again ->
      List.length (sleeps w') = List.length (sleeps w)).
Proof.
  cbv zeta. destruct (fetch_body_at E self u a w) as [p [pool [_ ->]]]. cbv zeta.
  set (w2 := tick E (emit _ _)).
  assert (H2 : gets w2 = gets w ++ [EGet (Checker.URL u) p] /\ sleeps w2 = sleeps w).
  { unfold w2, gets, sleeps, tick, emit. cbn [trace]. rewrite !filter_snoc. cbn.
    now rewrite app_nil_r. }
  destruct H2 as [Hg2 Hs2].
  assert (Hfailed : forall e,
            let r := Checker.fetch_failed E self u a e w2 in
            List.length (gets (snd r)) = S (List.length (gets w))
            /\ List.length (sleeps (snd r)) <= S (List.length (sleeps w))
            /\ (fst r = Again -> (retries (Checker.cfg self) <=? a)%Z = false)
            /\ (fst r <> Again ->
                List.length (sleeps (snd r)) = List.length (sleeps w))).
  { intros e r. destruct (fetch_failed_facts E self u a e w2) as [Hfst [Hnet _]].
    fold r in Hfst, Hnet.
    rewrite (gets_of_net (snd r)), (sleeps_of_net (snd r)), Hnet, !filter_app.
    rewrite <- gets_of_net, <- sleeps_of_net, Hg2, Hs2, !length_app. rewrite Hfst.
    destruct (_ <=? _)%Z; cbn; repeat split; try lia; try discriminate; congruence. }
  destruct (http_get E (now w) (Checker.URL u) p) as [r|[|k m]].
  - destruct (ok r); [|apply Hfailed]. cbn [fst snd].
    rewrite Hg2, Hs2, length_app. cbn. repeat split; try lia; discriminate.
  - cbn [fst snd]. rewrite Hg2, Hs2, length_app. cbn. repeat split; try lia; discriminate.
  - apply Hfailed.
Qed.

(** A fetch issues at most [retries - attempt] requests and sleeps at
    most once fewer. *)
Lemma fetch_loop_counts (fuel : nat) (u : string) (a : Z) (w : World) :
  let w' := snd (Checker.fetch_loop E self fuel u a w) in
  List.length (gets w') <= List.length (gets w) + Z.to_nat (retries (Checker.cfg self) - a)
  /\ List.length (sleeps w')
     <= List.length (sleeps w) + (Z.to_nat (retries (Checker.cfg self) - a) - 1).
Proof.
  cbv zeta. revert a w. induction fuel as [|fuel IH]; intros a w;
    cbn [Checker.fetch_loop]; [cbn [snd]; lia|].
  destruct (Z.ltb_spec a (retries (Checker.cfg self))) as [Hlt|Hge]; [|cbn [snd]; lia].
  unfold is_set. cbv zeta.
  destruct (shutdown (tick E w)); [cbn [snd]; change (gets (tick E w)) with (gets w);
                                   change (sleeps (tick E w)) with (sleeps w); lia|].
  destruct (fetch_body_counts u (a + 1) (tick E w)) as [Hg [Hs [Hag Hnag]]].
  change (gets (tick E w)) with (gets w) in Hg.
  change (sleeps (tick E w)) with (sleeps w) in Hs, Hnag.
  destruct (Checker.fetch_body E self u (a + 1) (tick E w)) as [[r|] w2];
    cbn [fst snd] in *.
  - rewrite Hg, Hnag by discriminate. lia.
  - specialize (Hag eq_refl). apply Z.leb_gt in Hag.
    destruct (IH (a + 1)%Z w2) as [IHg IHs]. split; lia.
Qed.

End FetchBounds.

Lemma requests_bounded (E : Env) (self : Checker.t) (us : list string) (w : World) :
  let r := Z.to_nat (retries (Checker.cfg self)) in
  (forall u w0,
      List.length (gets (snd (Checker.fetch E self u w0))) <= List.length (gets w0) + r
      /\ List.length (sleeps (snd (Checker.fetch E self u w0)))
         <= List.length (sleeps w0) + (r - 1))
  /\ List.length (gets (snd (Checker.batch E self us w)))
     <= List.length (gets w) + List.length us * r.
Proof.
  intros r.
  assert (Hfetch : forall u w0,
            List.length (gets (snd (Checker.fetch E self u w0)))
            <= List.length (gets w0) + r
            /\ List.length (sleeps (snd (Checker.fetch E self u w0)))
               <= List.length (sleeps w0) + (r - 1)).
  { intros u w0. unfold Checker.fetch.
    pose proof (fetch_loop_counts E self (Z.to_nat (retries (Checker.cfg self))) u 0 w0)
      as H.
    cbv zeta in H. rewrite Z.sub_0_r in H. exact H. }
  split; [exact Hfetch|].
  assert (Hcheck : forall u w0,
            List.length (gets (snd (Checker.check E self u w0)))
            <= List.length (gets w0) + r).
  { intros u w0. unfold Checker.check. destruct (Hfetch u w0) as [Hg _].
    destruct (Checker.fetch E self u w0) as [[html|e] w1]; cbn [snd] in *; [|exact Hg].
    destruct (Checker.parse E html);
      unfold Logger.success, Logger.error, Logger.warning;
      match goal with
      | |- context [gets (Logger._print ?lg ?l ?n ?m ?x)] =>
          destruct (print_frame lg l n m x) as [_ [_ [_ [Hp _]]]]; rewrite Hp
      end; exact Hg. }
  unfold Checker.batch.
  assert (Hg0 : gets (emit (EAddTask (List.length us)) w) = gets w).
  { unfold gets, emit. cbn [trace]. rewrite filter_snoc. cbn. apply app_nil_r. }
  rewrite <- Hg0. generalize (emit (EAddTask (List.length us)) w) as w0.
  generalize (@nil Result) as acc. clear Hg0.
  induction us as [|u us IH]; intros acc w0; cbn [Checker.batch_loop].
  - cbn [snd]. lia.
  - unfold is_set. cbv zeta.
    destruct (shutdown (tick E w0)).
    + cbn [snd]. unfold Logger.warning.
      match goal with
      | |- context [gets (Logger._print ?lg ?l ?n ?m ?x)] =>
          destruct (print_frame lg l n m x) as [_ [_ [_ [Hp _]]]]; rewrite Hp
      end.
      change (gets (tick E w0)) with (gets w0). cbn [List.length Nat.mul]. lia.
    + pose proof (Hcheck u (tick E w0)) as Hc.
      change (gets (tick E w0)) with (gets w0) in Hc.
      destruct (Checker.check E self u (tick E w0)) as [[res|[|k m]] w2]; cbn [snd] in *.
      * specialize (IH (acc ++ [res]) (emit EAdvance w2)).
        assert (Hge : gets (emit EAdvance w2) = gets w2).
        { unfold gets, emit. cbn [trace]. rewrite filter_snoc. cbn. apply app_nil_r. }
        rewrite Hge in IH. cbn [List.length Nat.mul]. lia.
      * unfold Logger.warning.
        assert (Hge : forall x, gets (emit EAdvance x) = gets x).
        { intros x. unfold gets, emit. cbn [trace]. rewrite filter_snoc. cbn.
          apply app_nil_r. }
        rewrite Hge.
        match goal with
        | |- context [gets (Logger._print ?lg ?l ?n ?m ?x)] =>
            destruct (print_frame lg l n m x) as [_ [_ [_ [Hp _]]]]; rewrite Hp
        end.
        cbn [List.length Nat.mul]. lia.
      * match goal with
        | |- context [Checker.batch_loop E self us ?a (emit EAdvance ?x)] =>
            specialize (IH a (emit EAdvance x));
            assert (Hge : gets (emit EAdvance x) = gets w2)
        end.
        { unfold gets at 1, emit. cbn [trace]. rewrite filter_snoc. cbn.
          rewrite app_nil_r. unfold Logger.error.
          match goal with
          | |- context [Logger._print ?lg ?l ?n ?m ?x] =>
              destruct (print_frame lg l n m x) as [_ [_ [_ [Hp _]]]]
          end.
          exact Hp. }
        rewrite Hge in IH. cbn [List.length Nat.mul]. lia.
Qed.

(** X12.  [fetch] never issues more than [retries] requests nor sleeps
    more than [retries - 1] times, whatever the network and the signals
    do; hence a batch over [n] usernames issues at most [n * retries]
    requests. *)
Theorem batch_request_bound (E : Env) (self : Checker.t) (us : list string) (w : World) :
  let r := Z.to_nat (retries (Checker.cfg self)) in
  (forall u w0,
      List.length (gets (snd (Checker.fetch E self u w0))) <= List.length (gets w0) + r
      /\ List.length (sleeps (snd (Checker.fetch E self u w0)))
         <= List.length (sleeps w0) + (r - 1))
  /\ List.length (gets (snd (Checker.batch E self us w)))
     <= List.length (gets w) + List.length us * r.
Proof. exact (requests_bounded E self us w). Qed.

(** ** No retries allowed *)

Lemma gets_emit_other (e : event) (w : World) :
  is_get e = false -> gets (emit e w) = gets w.
Proof.
  intros He. unfold gets, emit. cbn [trace]. rewrite filter_snoc, He. apply app_nil_r.
Qed.

Lemma check_without_attempts (E : Env) (self : Checker.t) (u : string) (w : World) :
  (retries (Checker.cfg self) <= 0)%Z ->
  bs4.find "h1" (html_parser E EmptyString) = None ->
  Checker.fetch E self u w = (Ok EmptyString, w)
  /\ exists w',
       Checker.check E self u w = (Ok (mkResult u TAKEN (now w)), w')
       /\ gets w' = gets w /\ shutdown w' = shutdown w /\ now w' = now w.
Proof.
  intros Hr Hempty.
  assert (Hf : Checker.fetch E self u w = (Ok EmptyString, w)).
  { unfold Checker.fetch. now replace (Z.to_nat (retries (Checker.cfg self))) with 0 by lia. }
  split; [exact Hf|]. unfold Checker.check. rewrite Hf.
  assert (Hp : Checker.parse E EmptyString = TAKEN).
  { unfold Checker.parse. now rewrite Hempty. }
  rewrite Hp. cbv zeta. unfold Logger.error.
  match goal with
  | |- context [Logger._print ?lg ?l ?n ?m ?x] =>
      destruct (print_frame lg l n m x) as [Hs [Hn [_ [Hg _]]]]
  end.
  eexists. rewrite Hn. split; [reflexivity|]. now rewrite Hg, Hs, Hn.
Qed.

(** X13.  With [retries <= 0] no request is ever issued: [fetch]
    returns the empty string at once, [check] reports the username as
    [TAKEN] (the empty document has no [h1]), and so does a whole batch
    for every username it gets to. *)
Theorem zero_retries_reports_taken
  (E : Env) (self : Checker.t) (us : list string) (w : World) :
  (retries (Checker.cfg self) <= 0)%Z ->
  bs4.find "h1" (html_parser E EmptyString) = None ->
  (forall u w0, Checker.fetch E self u w0 = (Ok EmptyString, w0))
  /\ gets (snd (Checker.batch E self us w)) = gets w
  /\ Forall (fun r => status r = TAKEN) (fst (Checker.batch E self us w)).
Proof.
  intros Hr Hempty. split.
  { intros u w0. apply (check_without_attempts E self u w0 Hr Hempty). }
  unfold Checker.batch.
  rewrite <- (@gets_emit_other (EAddTask (List.length us)) w eq_refl).
  generalize (emit (EAddTask (List.length us)) w) as w0.
  assert (Hacc : Forall (fun r => status r = TAKEN) (@nil Result)) by constructor.
  revert Hacc. generalize (@nil Result) as acc.
  induction us as [|u us IH]; intros acc Hacc w0; cbn [Checker.batch_loop].
  - now split.
  - unfold is_set. cbv zeta. destruct (shutdown (tick E w0)).
    + cbn [fst snd]. split; [|exact Hacc]. unfold Logger.warning.
      match goal with
      | |- context [Logger._print ?lg ?l ?n ?m ?x] =>
          destruct (print_frame lg l n m x) as [_ [_ [_ [Hg _]]]]
      end.
      now rewrite Hg.
    + destruct (check_without_attempts E self u (tick E w0) Hr Hempty)
        as [_ [w' [-> [Hg _]]]].
      assert (Hacc' : Forall (fun r => status r = TAKEN)
                        (acc ++ [mkResult u TAKEN (now (tick E w0))])).
      { apply Forall_app. split; [exact Hacc|]. now constructor. }
      destruct (IH _ Hacc' (emit EAdvance w')) as [IHg IHf].
      split; [|exact IHf].
      rewrite IHg, gets_emit_other by reflexivity. exact Hg.
Qed.

Lemma zero_retries_reports_taken_witness :
  (forall u w0, Checker.fetch mixed_env no_retry_checker u w0 = (Ok EmptyString, w0))
  /\ gets (snd (Checker.batch mixed_env no_retry_checker three_names fresh)) = gets fresh
  /\ Forall (fun r => status r = TAKEN)
       (fst (Checker.batch mixed_env no_retry_checker three_names fresh)).
Proof.
  apply (@zero_retries_reports_taken mixed_env no_retry_checker three_names fresh).
  - simpl. lia.
  - reflexivity.
Defined.

(** ** What a fetch can raise *)

Lemma fetch_failed_raises (E : Env) (self : Checker.t)
  (u : string) (a : Z) (e e' : exn) (w : World) :
  fst (Checker.fetch_failed E self u a e w) = Done (Raise e') -> e' = e.
Proof.
  unfold Checker.fetch_failed. destruct (_ <=? _)%Z; cbn [fst]; congruence.
Qed.

Lemma fetch_loop_raises (E : Env) (self : Checker.t)
  (fuel : nat) (u : string) (a : Z) (w : World) (e : exn) :
  fst (Checker.fetch_loop E self fuel u a w) = Raise e ->
  e = Exception "HTTPError" "HTTP Error"
  \/ exists t p, http_get E t (Checker.URL u) p = Failed e.
Proof.
  revert a w. induction fuel as [|fuel IH]; intros a w; cbn [Checker.fetch_loop];
    [discriminate|].
  destruct (a <? _)%Z; [|discriminate].
  unfold is_set. cbv zeta. destruct (shutdown (tick E w)); [discriminate|].
  destruct (fetch_body_at E self u (a + 1) (tick E w)) as [p [pool [_ Hb]]].
  cbv zeta in Hb.
  destruct (Checker.fetch_body E self u (a + 1) (tick E w)) as [[r|] w2] eqn:Hbody;
    cbn [fst]; [|apply IH].
  intros ->.
  destruct (http_get E (now (tick E w)) (Checker.URL u) p) as [r|[|k m]] eqn:Ho.
  - destruct (ok r); [discriminate|].
    left. symmetry in Hb. apply (f_equal fst) in Hb. cbn [fst] in Hb.
    now apply fetch_failed_raises in Hb.
  - right. injection Hb as -> _. eauto.
  - right. symmetry in Hb. apply (f_equal fst) in Hb. cbn [fst] in Hb.
    apply fetch_failed_raises in Hb. subst e. eauto.
Qed.



(** ** Interrupts and the shape of a batch result *)

(** X15.  When [check] raises [KeyboardInterrupt] for a username, the
    batch stops there: it returns the results gathered before that
    username and none for it, calls [progress.advance] once more, and
    issues no request for any later username. *)
Theorem interrupt_stops_batch
  (E : Env) (self : Checker.t) (us1 : list string) (u : string) (us2 : list string)
  (w : World) (rs : list Result) (w1 w2 : World) :
  Checker.batch_loop E self us1 []
    (emit (EAddTask (List.length (us1 ++ u :: us2))) w) = (rs, w1) ->
  List.length rs = List.length us1 ->
  fst (is_set E w1) = false ->
  Checker.check E self u (snd (is_set E w1)) = (Raise KeyboardInterrupt, w2) ->
  exists w3,
    Checker.batch E self (us1 ++ u :: us2) w = (rs, w3)
    /\ advanced w3 = S (advanced w1)
    /\ gets w3 = gets w2.
Proof.
  intros H1 Hl Hset Hc. unfold Checker.batch.
  rewrite (@batch_loop_app E self us1 (u :: us2) [] rs _ w1 H1 Hl).
  cbn [Checker.batch_loop].
  destruct (is_set E w1) as [stop w1'] eqn:His. cbn [fst snd] in *. subst stop.
  rewrite Hc. eexists. split; [reflexivity|].
  pose proof (runs_check E self u w1') as Hr. rewrite Hc in Hr. cbn [snd] in Hr.
  unfold Logger.warning.
  destruct (print_frame (Checker.log self) Logger.WARNING "WARNING"
              "Interrupted by user" w2) as [_ [_ [_ [Hg [_ Ha]]]]].
  split.
  - rewrite advanced_emit, Ha, (runs_advanced Hr).
    unfold is_set in His. injection His as _ <-. reflexivity.
  - rewrite gets_emit_other by reflexivity. exact Hg.
Qed.

Lemma interrupt_stops_batch_witness :
  exists w3,
    Checker.batch interrupt_on_b default_checker (["a"] ++ "b" :: ["c"]) fresh
    = ([mkResult "a" TAKEN 3], w3)
    /\ advanced w3
       = S (advanced (snd (Checker.batch_loop interrupt_on_b default_checker ["a"] []
                             (emit (EAddTask 3) fresh))))
    /\ gets w3
       = gets (snd (Checker.check interrupt_on_b default_checker "b"
                      (snd (is_set interrupt_on_b
                              (snd (Checker.batch_loop interrupt_on_b default_checker
                                      ["a"] [] (emit (EAddTask 3) fresh))))))).
Proof.
  apply (@interrupt_stops_batch interrupt_on_b default_checker ["a"] "b" ["c"] fresh
           [mkResult "a" TAKEN 3]
           (snd (Checker.batch_loop interrupt_on_b default_checker ["a"] []
                   (emit (EAddTask 3) fresh)))).
  - vm_compute. reflexivity.
  - reflexivity.
  - vm_compute. reflexivity.
  - vm_compute. reflexivity.
Defined.

Lemma batch_loop_prefix (E : Env) (self : Checker.t)
  (us : list string) (acc : list Result) (w : World) :
  exists more rest extra,
    fst (Checker.batch_loop E self us acc w) = acc ++ more
    /\ us = map username more ++ rest
    /\ advanced (snd (Checker.batch_loop E self us acc w))
       = advanced w + List.length more + extra
    /\ extra <= 1
    /\ (rest = [] -> extra = 0).
Proof.
  revert acc w. induction us as [|u us IH]; intros acc w; cbn [Checker.batch_loop].
  - exists [], [], 0. cbn [fst snd]. rewrite app_nil_r. repeat split; simpl; lia.
  - unfold is_set. cbv zeta. destruct (shutdown (tick E w)).
    + exists [], (u :: us), 0. cbn [fst snd]. rewrite app_nil_r.
      unfold Logger.warning.
      match goal with
      | |- context [Logger._print ?lg ?l ?n ?m ?x] =>
          destruct (print_frame lg l n m x) as [_ [_ [_ [_ [_ Ha]]]]]; rewrite Ha
      end.
      change (advanced (tick E w)) with (advanced w).
      repeat split; simpl; lia.
    + pose proof (runs_check E self u (tick E w)) as Hr.
      pose proof (@check_username E self u (tick E w)) as Hu.
      destruct (Checker.check E self u (tick E w)) as [[r|[|k m]] w2]; cbn [snd] in Hr.
      * destruct (IH (acc ++ [r]) (emit EAdvance w2))
          as [more [rest [extra [Hf [Hus [Ha [He Hrest]]]]]]].
        exists (r :: more), rest, extra. rewrite Hf, Ha, advanced_emit, (runs_advanced Hr).
        change (advanced (tick E w)) with (advanced w).
        split; [now rewrite <- app_assoc|]. split.
        { simpl. now rewrite (Hu w2 r eq_refl), <- Hus. }
        split; [simpl; lia|]. split; assumption.
      * exists [], (u :: us), 1. cbn [fst snd]. rewrite app_nil_r, advanced_emit.
        unfold Logger.warning.
        match goal with
        | |- context [Logger._print ?lg ?l ?n ?m ?x] =>
            destruct (print_frame lg l n m x) as [_ [_ [_ [_ [_ Ha]]]]]; rewrite Ha
        end.
        rewrite (runs_advanced Hr). change (advanced (tick E w)) with (advanced w).
        repeat split; simpl; try lia. discriminate.
      * match goal with
        | |- context [Checker.batch_loop E self us ?a (emit EAdvance ?x)] =>
            destruct (IH a (emit EAdvance x))
              as [more [rest [extra [Hf [Hus [Ha [He Hrest]]]]]]];
            assert (Hx : advanced x = advanced w2)
              by (unfold Logger.error;
                  match goal with
                  | |- context [Logger._print ?lg ?l ?n ?m ?y] =>
                      destruct (print_frame lg l n m y) as [_ [_ [_ [_ [_ Hp]]]]];
                      exact Hp
                  end)
        end.
        eexists (_ :: more), rest, extra.
        rewrite Hf, Ha, advanced_emit, Hx, (runs_advanced Hr).
        change (advanced (tick E w)) with (advanced w).
        split; [now rewrite <- app_assoc|]. split.
        { simpl. now rewrite <- Hus. }
        split; [simpl; lia|]. split; assumption.
Qed.

(** X16.  Whatever happens during a batch (shutdown, interrupt,
    failures), the results are for an initial segment of the
    usernames, one each and in order; [progress.advance] has been
    called once per result and at most once more, and exactly once per
    result when the whole list was covered. *)
Theorem batch_results_cover_a_prefix
  (E : Env) (self : Checker.t) (us : list string) (w : World) :
  exists rest extra,
    us = map username (fst (Checker.batch E self us w)) ++ rest
    /\ advanced (snd (Checker.batch E self us w))
       = advanced w + List.length (fst (Checker.batch E self us w)) + extra
    /\ extra <= 1
    /\ (rest = [] -> extra = 0).
Proof.
  unfold Checker.batch.
  destruct (batch_loop_prefix E self us [] (emit (EAddTask (List.length us)) w))
    as [more [rest [extra [Hf [Hus [Ha [He Hrest]]]]]]].
  cbn [app] in Hf. exists rest, extra. rewrite Hf, Ha.
  split; [exact Hus|]. split; [|split; assumption].
  unfold advanced at 1, emit. cbn [trace]. rewrite filter_snoc. cbn.
  now rewrite app_nil_r.
Qed.


(** ** Requests and the proxy pool *)

Section ProxyUse.

Variable E : Env.
Variable self : Checker.t.

(** After one pass through the body: one more request, carrying what
    [_proxy] returned, and the pool as [_proxy] left it. *)
Lemma fetch_body_world (u : string) (a : Z) (w : World) :
  exists p pool,
    Checker._proxy self w = (Ok p, mkWorld (shutdown w) (now w) pool (trace w))
    /\ gets (snd (Checker.fetch_body E self u a w)) = gets w ++ [EGet (Checker.URL u) p]
    /\ proxies (snd (Checker.fetch_body E self u a w)) = pool.
Proof.
  destruct (fetch_body_at E self u a w) as [p [pool [Hp ->]]]. exists p, pool.
  split; [exact Hp|]. cbv zeta. set (w2 := tick E (emit _ _)).
  assert (H2 : gets w2 = gets w ++ [EGet (Checker.URL u) p] /\ proxies w2 = pool).
  { unfold w2, gets, tick, emit. cbn [trace proxies]. now rewrite filter_snoc. }
  destruct H2 as [Hg2 Hp2].
  assert (Hfailed : forall e,
            gets (snd (Checker.fetch_failed E self u a e w2))
            = gets w ++ [EGet (Checker.URL u) p]
            /\ proxies (snd (Checker.fetch_failed E self u a e w2)) = pool).
  { intros e. destruct (fetch_failed_facts E self u a e w2) as [_ [Hnet [_ [Hpx _]]]].
    rewrite gets_of_net, Hnet, filter_app, <- gets_of_net, Hg2, Hpx, Hp2.
    split; [|reflexivity]. destruct (_ <=? _)%Z; cbn; now rewrite app_nil_r. }
  destruct (http_get E (now w) (Checker.URL u) p) as [r|[|k m]].
  - destruct (ok r); [now split | apply Hfailed].
  - now split.
  - apply Hfailed.
Qed.

(** Proxies are off, or there is no pool. *)
Definition no_proxy (w : World) : Prop :=
  use_proxy (Checker.cfg self) = false \/ proxies w = None.

Lemma proxy_disabled (w : World) : no_proxy w -> Checker._proxy self w = (Ok None, w).
Proof.
  unfold no_proxy, Checker._proxy. destruct w as [sd nw [pool|] tr]; cbn [proxies];
    intros [H|H]; try discriminate; try reflexivity.
  now rewrite H.
Qed.

Lemma fetch_loop_direct (fuel : nat) (u : string) (a : Z) (w : World) :
  no_proxy w ->
  exists l,
    gets (snd (Checker.fetch_loop E self fuel u a w)) = gets w ++ l
    /\ Forall direct l
    /\ proxies (snd (Checker.fetch_loop E self fuel u a w)) = proxies w.
Proof.
  revert a w. induction fuel as [|fuel IH]; intros a w Hno; cbn [Checker.fetch_loop].
  - exists []. cbn [snd]. rewrite app_nil_r. repeat split. constructor.
  - destruct (a <? _)%Z;
      [|exists []; cbn [snd]; rewrite app_nil_r; repeat split; constructor].
    unfold is_set. cbv zeta.
    destruct (shutdown (tick E w));
      [exists []; cbn [snd]; rewrite app_nil_r; repeat split; constructor|].
    assert (Hno1 : no_proxy (tick E w)) by exact Hno.
    destruct (fetch_body_world u (a + 1) (tick E w)) as [p [pool [Hp [Hg Hpx]]]].
    rewrite (proxy_disabled Hno1) in Hp.
    assert (Hpn : p = None) by now injection Hp.
    assert (Hw : proxies w = pool)
      by (apply (f_equal (fun x => proxies (snd x))) in Hp; exact Hp).
    subst p. clear Hp.
    change (gets (tick E w)) with (gets w) in Hg.
    destruct (Checker.fetch_body E self u (a + 1) (tick E w)) as [[r|] w2];
      cbn [snd] in *.
    + exists [EGet (Checker.URL u) None]. split; [exact Hg|]. split.
      * constructor; [now exists (Checker.URL u) | constructor].
      * congruence.
    + assert (Hno2 : no_proxy w2).
      { destruct Hno as [H|H]; [now left | right; congruence]. }
      destruct (IH (a + 1)%Z w2 Hno2) as [l [Hgl [Hd Hpl]]].
      exists (EGet (Checker.URL u) None :: l). split; [|split].
      * rewrite Hgl, Hg, <- app_assoc. reflexivity.
      * constructor; [now exists (Checker.URL u) | exact Hd].
      * congruence.
Qed.

Lemma check_direct (u : string) (w : World) :
  no_proxy w ->
  exists l,
    gets (snd (Checker.check E self u w)) = gets w ++ l
    /\ Forall direct l
    /\ proxies (snd (Checker.check E self u w)) = proxies w.
Proof.
  intros Hno. unfold Checker.check, Checker.fetch.
  destruct (fetch_loop_direct (Z.to_nat (retries (Checker.cfg self))) u 0 Hno)
    as [l [Hg [Hd Hp]]].
  exists l.
  destruct (Checker.fetch_loop E self _ u 0 w) as [[html|e] w1]; cbn [snd] in *;
    [|now repeat split].
  destruct (Checker.parse E html);
    unfold Logger.success, Logger.error, Logger.warning;
    match goal with
    | |- context [Logger._print ?lg ?lv ?n ?m ?x] =>
        destruct (print_frame lg lv n m x) as [_ [_ [Hpp [Hgp _]]]]; rewrite Hgp, Hpp
    end; now repeat split.
Qed.

Lemma batch_loop_direct (us : list string) (acc : list Result) (w : World) :
  no_proxy w ->
  exists l,
    gets (snd (Checker.batch_loop E self us acc w)) = gets w ++ l
    /\ Forall direct l
    /\ proxies (snd (Checker.batch_loop E self us acc w)) = proxies w.
Proof.
  revert acc w. induction us as [|u us IH]; intros acc w Hno; cbn [Checker.batch_loop].
  - exists []. cbn [snd]. rewrite app_nil_r. repeat split. constructor.
  - unfold is_set. cbv zeta. destruct (shutdown (tick E w)).
    + exists []. cbn [snd]. rewrite app_nil_r. unfold Logger.warning.
      match goal with
      | |- context [Logger._print ?lg ?lv ?n ?m ?x] =>
          destruct (print_frame lg lv n m x) as [_ [_ [Hpp [Hgp _]]]]; rewrite Hgp, Hpp
      end.
      repeat split. constructor.
    + assert (Hno1 : no_proxy (tick E w)) by exact Hno.
      destruct (check_direct u Hno1) as [l [Hg [Hd Hp]]].
      change (gets (tick E w)) with (gets w) in Hg.
      change (proxies (tick E w)) with (proxies w) in Hp.
      destruct (Checker.check E self u (tick E w)) as [[r|[|k m]] w2]; cbn [snd] in *.
      * assert (Hno2 : no_proxy (emit EAdvance w2)).
        { destruct Hno as [H|H]; [now left | right; cbn; congruence]. }
        destruct (IH (acc ++ [r]) (emit EAdvance w2) Hno2) as [l' [Hg' [Hd' Hp']]].
        exists (l ++ l'). rewrite Hg', gets_emit_other, Hg, app_assoc by reflexivity.
        split; [reflexivity|]. split; [now apply Forall_app|].
        rewrite Hp'. cbn. exact Hp.
      * exists l. rewrite gets_emit_other by reflexivity. unfold Logger.warning.
        match goal with
        | |- context [Logger._print ?lg ?lv ?n ?m ?x] =>
            destruct (print_frame lg lv n m x) as [_ [_ [Hpp [Hgp _]]]]
        end.
        cbn [emit proxies]. rewrite Hgp, Hpp. now repeat split.
      * match goal with
        | |- context [Checker.batch_loop E self us ?a0 (emit EAdvance ?x)] =>
            assert (Hx : gets x = gets w2 /\ proxies x = proxies w2)
              by (unfold Logger.error;
                  match goal with
                  | |- context [Logger._print ?lg ?lv ?n ?m ?y] =>
                      destruct (print_frame lg lv n m y) as [_ [_ [Hpp [Hgp _]]]];
                      now split
                  end);
            destruct Hx as [Hxg Hxp];
            assert (Hno2 : no_proxy (emit EAdvance x))
              by (destruct Hno as [H|H];
                  [now left | right; cbn [emit proxies]; now rewrite Hxp, Hp]);
            destruct (IH a0 (emit EAdvance x) Hno2) as [l' [Hg' [Hd' Hp']]]
        end.
        exists (l ++ l'). rewrite Hg', gets_emit_other, Hxg, Hg, app_assoc by reflexivity.
        split; [reflexivity|]. split; [now apply Forall_app|].
        rewrite Hp'. cbn [emit proxies]. now rewrite Hxp.
Qed.

End ProxyUse.

(** X17.  With [use_proxy] off, or with no pool given to the checker,
    every request of a batch goes out directly ([proxies=None]) and the
    pool is left exactly as it was. *)
Theorem batch_without_proxies_is_direct
  (E : Env) (self : Checker.t) (us : list string) (w : World) :
  use_proxy (Checker.cfg self) = false \/ proxies w = None ->
  exists l,
    gets (snd (Checker.batch E self us w)) = gets w ++ l
    /\ Forall direct l
    /\ proxies (snd (Checker.batch E self us w)) = proxies w.
Proof.
  intros Hno. unfold Checker.batch.
  destruct (@batch_loop_direct E self us [] (emit (EAddTask (List.length us)) w) Hno)
    as [l [Hg [Hd Hp]]].
  exists l. rewrite Hg, gets_emit_other by reflexivity. now repeat split.
Qed.

Lemma batch_without_proxies_is_direct_witness :
  exists l,
    gets (snd (Checker.batch mixed_env default_checker three_names pooled))
    = gets pooled ++ l
    /\ Forall direct l
    /\ proxies (snd (Checker.batch mixed_env default_checker three_names pooled))
       = proxies pooled.
Proof.
  apply (@batch_without_proxies_is_direct mixed_env default_checker three_names pooled).
  left. reflexivity.
Defined.

Lemma nexts_succ (k : nat) (p : ProxyPool.t) :
  ProxyPool.nexts (S k) p
  = (fst (ProxyPool.next p) :: fst (ProxyPool.nexts k (snd (ProxyPool.next p))),
     snd (ProxyPool.nexts k (snd (ProxyPool.next p)))).
Proof.
  cbn [ProxyPool.nexts]. destruct (ProxyPool.next p) as [v p']. cbn [fst snd].
  now destruct (ProxyPool.nexts k p').
Qed.

Section ProxyRotation.

Variable E : Env.
Variable self : Checker.t.

Hypothesis proxies_on : use_proxy (Checker.cfg self) = true.

Lemma proxy_enabled (w : World) (pool : ProxyPool.t) :
  proxies w = Some pool ->
  Checker._proxy self w
  = (fst (ProxyPool.next pool),
     mkWorld (shutdown w) (now w) (Some (snd (ProxyPool.next pool))) (trace w)).
Proof.
  intros Hp. unfold Checker._proxy. rewrite Hp, proxies_on.
  now destruct (ProxyPool.next pool).
Qed.

Lemma fetch_loop_draws (fuel : nat) (u : string) (a : Z) (w : World) (pool : ProxyPool.t) :
  proxies w = Some pool ->
  exists k ps,
    k <= fuel
    /\ fst (ProxyPool.nexts k pool) = map (fun p => Ok p) ps
    /\ gets (snd (Checker.fetch_loop E self fuel u a w))
       = gets w ++ map (EGet (Checker.URL u)) ps
    /\ proxies (snd (Checker.fetch_loop E self fuel u a w))
       = Some (snd (ProxyPool.nexts k pool)).
Proof.
  revert a w pool. induction fuel as [|fuel IH]; intros a w pool Hpool;
    cbn [Checker.fetch_loop].
  - exists 0, []. cbn. rewrite app_nil_r. repeat split; [lia | exact Hpool].
  - assert (Hstay : exists k ps,
              k <= S fuel
              /\ fst (ProxyPool.nexts k pool) = map (fun p => Ok p) ps
              /\ gets w = gets w ++ map (EGet (Checker.URL u)) ps
              /\ proxies w = Some (snd (ProxyPool.nexts k pool))).
    { exists 0, []. cbn. rewrite app_nil_r. repeat split; [lia | exact Hpool]. }
    destruct (a <? _)%Z; [|exact Hstay].
    unfold is_set. cbv zeta. destruct (shutdown (tick E w)); [exact Hstay|].
    clear Hstay.
    assert (Hpool1 : proxies (tick E w) = Some pool) by exact Hpool.
    destruct (fetch_body_world E self u (a + 1) (tick E w)) as [p [po [Hp [Hg Hpx]]]].
    rewrite (proxy_enabled _ Hpool1) in Hp.
    assert (Hv : fst (ProxyPool.next pool) = Ok p) by now injection Hp.
    assert (Hpo : Some (snd (ProxyPool.next pool)) = po)
      by (apply (f_equal (fun x => proxies (snd x))) in Hp; exact Hp).
    clear Hp. rewrite <- Hpo in Hpx. clear Hpo po.
    change (gets (tick E w)) with (gets w) in Hg.
    destruct (Checker.fetch_body E self u (a + 1) (tick E w)) as [[r|] w2];
      cbn [snd] in *.
    + exists 1, [p]. rewrite nexts_succ. cbn [ProxyPool.nexts fst snd map].
      rewrite Hv. repeat split; [lia | exact Hg | exact Hpx].
    + destruct (IH (a + 1)%Z w2 _ Hpx) as [k [ps [Hk [Hn [Hg' Hp']]]]].
      exists (S k), (p :: ps). rewrite nexts_succ. cbn [fst snd map].
      rewrite Hv, Hn, Hg', Hg, Hp', <- app_assoc.
      repeat split. lia.
Qed.

End ProxyRotation.

(** X18.  With proxies switched on and a pool in place, every request
    of a [fetch] carries what one call of [next] returns: the requests
    carry, in order, exactly the values of as many successive [next]
    calls on the pool, and the pool is left as those calls leave it.
    One proxy is drawn per attempt, not per username. *)
Theorem fetch_draws_successive_proxies
  (E : Env) (self : Checker.t) (u : string) (w : World) (pool : ProxyPool.t) :
  use_proxy (Checker.cfg self) = true ->
  proxies w = Some pool ->
  exists k ps,
    k <= Z.to_nat (retries (Checker.cfg self))
    /\ List.length ps = k
    /\ fst (ProxyPool.nexts k pool) = map (fun p => Ok p) ps
    /\ gets (snd (Checker.fetch E self u w)) = gets w ++ map (EGet (Checker.URL u)) ps
    /\ proxies (snd (Checker.fetch E self u w)) = Some (snd (ProxyPool.nexts k pool)).
Proof.
  intros Hon Hpool. unfold Checker.fetch.
  destruct (@fetch_loop_draws E self Hon (Z.to_nat (retries (Checker.cfg self)))
              u 0 w pool Hpool) as [k [ps [Hk [Hn [Hg Hp]]]]].
  exists k, ps. split; [exact Hk|]. split; [|now repeat split].
  apply (f_equal (@List.length _)) in Hn. rewrite length_map in Hn. rewrite <- Hn.
  clear. revert pool. induction k as [|k IH]; intros pool; [reflexivity|].
  rewrite nexts_succ. cbn [fst List.length]. now rewrite IH.
Qed.

Lemma fetch_draws_successive_proxies_witness :
  exists k ps,
    k <= Z.to_nat 3
    /\ List.length ps = k
    /\ fst (ProxyPool.nexts k three_proxies) = map (fun p => Ok p) ps
    /\ gets (snd (Checker.fetch down_env proxy_checker "ab" pooled))
       = gets pooled ++ map (EGet (Checker.URL "ab")) ps
    /\ proxies (snd (Checker.fetch down_env proxy_checker "ab" pooled))
       = Some (snd (ProxyPool.nexts k three_proxies)).
Proof.
  apply (@fetch_draws_successive_proxies down_env proxy_checker "ab" pooled three_proxies).
  - reflexivity.
  - reflexivity.
Defined.

Example fetch_rotates_through_the_pool :
  gets (snd (Checker.fetch down_env proxy_checker "ab" pooled))
  = map (fun e => EGet "https://guns.lol/ab" (Some (ProxyPool._fmt e)))
      ["socks5://10.0.0.2:1080"; "10.0.0.3:81"; "10.0.0.1:80"].
Proof. vm_compute. reflexivity. Qed.


(** ** The program as a whole ([Config.load], [main]) *)

Lemma announce_frame (lg : Logger.t) (px : option ProxyPool.t) (w : World) :
  exists l,
    trace (main_announce lg px w) = trace w ++ l
    /\ Forall (fun e => exists m, e = EPrint "PANEL" m \/ e = EPrint "INFO" m) l
    /\ gets (main_announce lg px w) = gets w
    /\ shutdown (main_announce lg px w) = shutdown w.
Proof.
  unfold main_announce. cbv zeta.
  set (w1 := emit (EPrint "PANEL" banner_text) w).
  assert (H1 : exists l,
            trace w1 = trace w ++ l
            /\ Forall (fun e => exists m, e = EPrint "PANEL" m \/ e = EPrint "INFO" m) l
            /\ gets w1 = gets w /\ shutdown w1 = shutdown w).
  { exists [EPrint "PANEL" banner_text]. repeat split.
    - constructor; [eauto | constructor].
    - unfold w1. now rewrite gets_emit_other. }
  destruct px as [pool|]; [|exact H1].
  destruct (0 <? ProxyPool.count pool); [|exact H1].
  unfold Logger.info, Logger._print. destruct (_ <=? _); [|exact H1].
  eexists [EPrint "PANEL" banner_text; EPrint "INFO" _]. repeat split.
  - unfold w1, emit. cbn [trace]. now rewrite <- app_assoc.
  - repeat constructor; eauto.
  - unfold w1. now rewrite !gets_emit_other.
Qed.

(** The constructor on ["max"] with [max_len > 4], for use below. *)
Lemma init_raises_on_long_max (c : Generator.config) :
  Generator.cfg_count c = Some Generator.CntMax ->
  4 < Generator.get (Generator.cfg_max c) 12 ->
  Generator.__init__ (Some c)
  = Raise (Exception "ValueError" "invalid literal for int() with base 10: 'max'").
Proof.
  intros Hc Hmax. unfold Generator.__init__. cbn [Generator.get]. rewrite Hc.
  cbn [Generator.get andb].
  destruct (Nat.leb_spec (Generator.get (Generator.cfg_max c) 12) 4) as [H|_];
    [lia | reflexivity].
Qed.

(** X19.  When the configuration has no ["generation"] block, or an
    empty one, [main] logs "No generator config found" as an error and
    exits with code 1 without issuing any request. *)
Theorem main_without_generation
  (E : Env) (data : res json) (cfg_ : Config) (gen : option generation)
  (pf : opened) (g : Random) (w : World) :
  Config_load data = Ok (cfg_, gen) ->
  match gen with
  | None => True
  | Some b => generation_truthy b = false
  end ->
  fst (main E data pf g w) = 1%Z
  /\ gets (snd (main E data pf g w)) = gets w
  /\ exists tr,
       trace (snd (main E data pf g w))
       = tr ++ [EPrint "ERROR" "No generator config found"].
Proof.
  intros Hload Hgen. unfold main. rewrite Hload. cbv zeta.
  assert (Hnone : main_generator gen = None).
  { unfold main_generator. destruct gen as [b|]; [now rewrite Hgen | reflexivity]. }
  rewrite Hnone. cbn [fst snd].
  destruct (announce_frame (Logger.mk 20) (main_proxies cfg_ pf) w) as [l [Ht [_ [Hg _]]]].
  split; [reflexivity|]. split.
  - change (Logger.error (Logger.mk 20) ?m ?x) with (emit (EPrint "ERROR" m) x).
    now rewrite gets_emit_other.
  - eexists. reflexivity.
Qed.

Lemma main_without_generation_witness :
  fst (main mixed_env (Ok (mkjson None None)) FileNotFoundError counting fresh) = 1%Z
  /\ gets (snd (main mixed_env (Ok (mkjson None None)) FileNotFoundError counting fresh))
     = gets fresh
  /\ exists tr,
       trace (snd (main mixed_env (Ok (mkjson None None)) FileNotFoundError counting fresh))
       = tr ++ [EPrint "ERROR" "No generator config found"].
Proof.
  apply (@main_without_generation mixed_env (Ok (mkjson None None))
           (mkConfig "safari_ios" 10 3 (1 # 1) false) None
           FileNotFoundError counting fresh).
  - reflexivity.
  - exact I.
Defined.

(** X20.  When the generation block asks for the count ["max"] with
    [max_len > 4], [main] exits with code 1 without issuing any request
    and without logging any error: the [ValueError] of the constructor
    is swallowed by [except Exception]. *)
Theorem main_long_max_exits_silently
  (E : Env) (data : res json) (cfg_ : Config) (b : generation)
  (pf : opened) (g : Random) (w : World) :
  Config_load data = Ok (cfg_, Some b) ->
  Generator.cfg_count (gen_keys b) = Some Generator.CntMax ->
  4 < Generator.get (Generator.cfg_max (gen_keys b)) 12 ->
  fst (main E data pf g w) = 1%Z
  /\ gets (snd (main E data pf g w)) = gets w
  /\ exists l,
       trace (snd (main E data pf g w)) = trace w ++ l
       /\ Forall (fun e => exists m, e = EPrint "PANEL" m \/ e = EPrint "INFO" m) l.
Proof.
  intros Hload Hc Hmax. unfold main. rewrite Hload. cbv zeta.
  assert (Hgen : main_generator (Some b)
                 = Some (Raise (Exception "ValueError"
                                  "invalid literal for int() with base 10: 'max'"))).
  { unfold main_generator.
    assert (Ht : generation_truthy b = true).
    { unfold generation_truthy. rewrite Hc.
      destruct (Generator.cfg_min (gen_keys b)), (Generator.cfg_max (gen_keys b)),
        (Generator.cfg_digits (gen_keys b)); apply orb_true_r. }
    rewrite Ht. f_equal.
    apply init_raises_on_long_max; assumption. }
  rewrite Hgen. cbn [fst snd exit_of].
  destruct (announce_frame (Logger.mk 20) (main_proxies cfg_ pf) w) as [l [Ht [Hl [Hg _]]]].
  split; [reflexivity|]. split; [exact Hg|]. now exists l.
Qed.

Lemma main_long_max_exits_silently_witness :
  fst (main mixed_env config_max_5 FileNotFoundError counting fresh) = 1%Z
  /\ gets (snd (main mixed_env config_max_5 FileNotFoundError counting fresh)) = gets fresh
  /\ exists l,
       trace (snd (main mixed_env config_max_5 FileNotFoundError counting fresh))
       = trace fresh ++ l
       /\ Forall (fun e => exists m, e = EPrint "PANEL" m \/ e = EPrint "INFO" m) l.
Proof.
  apply (@main_long_max_exits_silently mixed_env config_max_5
           (mkConfig "safari_ios" 10 3 (1 # 1) false) (mkgeneration max_5 false)
           FileNotFoundError counting fresh).
  - reflexivity.
  - reflexivity.
  - simpl. lia.
Defined.




Example main_runs :
  fst (main mixed_env config_two_names FileNotFoundError counting fresh) = 0%Z
  /\ trace (snd (main mixed_env config_two_names FileNotFoundError counting fresh))
     = [EPrint "PANEL" "guns.lol checker v1.0.0 by populated";
        EPrint "INFO" "Checking 2 usernames"; EAddTask 2;
        EGet "https://guns.lol/bc" None; EPrint "ERROR" "bc is taken"; EAdvance;
        EGet "https://guns.lol/ef" None; EPrint "ERROR" "ef is taken"; EAdvance;
        EPrint "WARNING" "None available out of 2 checked"]
  /\ fst (main mixed_env (Raise (Exception "FileNotFoundError" "config.json"))
            FileNotFoundError counting fresh) = 1%Z.
Proof. repeat split; vm_compute; reflexivity. Qed.
